(** * Price book export: a shallow embedding of [files/scripts/app.py]

    The export script logs in to the remote service, discovers the custom
    fields of two entity types, probes for multi-currency support, preloads
    the price books, and then makes one pass over the stream of price book
    entries.  The pass builds the nested index (price book -> entries) and
    writes one flat row per record; afterwards the flat file is re-read and
    re-written with a tab delimiter, and the sorted index is serialised as
    the hierarchical document.

    Conventions of the embedding.
    - Python values that travel through the script are JSON-shaped; they are
      the inductive [value].  Numbers are integers: the script never computes
      with a number, it only copies and prints it, and floating point is
      outside this development.
    - A Python [dict] is an association list in insertion order with the
      update-in-place discipline of [dict_set].
    - An exception is a constructor of [exn]; a computation that may raise
      returns a [result].
    - Text is a [string] of characters; every character the csv dialects
      treat specially is ASCII, so the UTF-8 encoding of the files (and the
      byte-order mark added on write and dropped on read) is transparent.
    - The remote service is a record of answers: what [describe] returns
      for an entity, what a query raises, which records a query yields
      before it is exhausted or raises.
    - The file system is a map from paths to texts; opening and writing a
      file succeed.  What the script prints is not modelled.
    - The library functions [str], [str.lower] and [json.dumps], and the
      clock, are parameters. *)

From Stdlib Require Import String Ascii List ZArith Lia Bool Arith Permutation Sorted
  DecimalString.
Import ListNotations.
Local Open Scope list_scope.
Local Open Scope string_scope.
Set Warnings "-register-all".

(** ** Python values *)

Inductive value : Type :=
| VNone
| VBool (b : bool)
| VNum (n : Z)
| VStr (s : string)
| VDict (d : list (string * value)).

Definition dict : Type := list (string * value).

(** Truth value of an object, as tested by [if], [not] and [or]. *)
Definition truthy (v : value) : bool :=
  match v with
  | VNone => false
  | VBool b => b
  | VNum n => negb (n =? 0)%Z
  | VStr s => negb (s =? EmptyString)
  | VDict d => match d with [] => false | _ => true end
  end.

(** [a or b] *)
Definition py_or (a b : value) : value := if truthy a then a else b.

(** ** Exceptions and results *)

Inductive exn : Type :=
| SalesforceMalformedRequest (msg : string)      (* carries [str(e)] *)
| SalesforceAuthenticationFailed (details : string)
| RuntimeError (msg : string)
| KeyError (k : string)
| TypeError
| AttributeError
| CsvError (msg : string)
| OtherError (name : string).                    (* network faults and the like *)

Inductive result (A : Type) : Type :=
| Ok (a : A)
| Raise (e : exn).
Arguments Ok {A} a.
Arguments Raise {A} e.

Definition bind {A B} (c : result A) (k : A -> result B) : result B :=
  match c with
  | Ok a => k a
  | Raise e => Raise e
  end.

Declare Scope py_scope.
Delimit Scope py_scope with py.
Notation "x <- c ;; k" := (bind c (fun x => k))
  (at level 61, c at next level, right associativity) : py_scope.
Local Open Scope py_scope.

(** ** Dictionaries *)

Section Dict.
Context {V : Type}.

Fixpoint lookup (k : string) (d : list (string * V)) : option V :=
    match d with
    | [] => None
    | (k', v) :: d' => if k' =? k then Some v else lookup k d'
    end.

  (** [d[k] = v]: an existing key keeps its position. *)
Fixpoint dict_set (k : string) (v : V) (d : list (string * V)) : list (string * V) :=
    match d with
    | [] => [(k, v)]
    | (k', v') :: d' => if k' =? k then (k, v) :: d' else (k', v') :: dict_set k v d'
    end.

  (** [k in d] *)
Definition has_key (k : string) (d : list (string * V)) : bool :=
    match lookup k d with Some _ => true | None => false end.
End Dict.

(** [d.get(k)] with the default [None]. *)
Definition get (d : dict) (k : string) : value :=
  match lookup k d with Some v => v | None => VNone end.

(** [d.get(k, default)] *)
Definition get_default (d : dict) (k : string) (default : value) : value :=
  match lookup k d with Some v => v | None => default end.

(** [d[k]] *)
Definition getitem (d : dict) (k : string) : result value :=
  match lookup k d with Some v => Ok v | None => Raise (KeyError k) end.

(** [v[k]] on an arbitrary object: only a dict can be subscripted by a
    string. *)
Definition subscript (v : value) (k : string) : result value :=
  match v with
  | VDict d => getitem d k
  | _ => Raise TypeError
  end.

(** [v.get(k)] on an arbitrary object. *)
Definition method_get (v : value) (k : string) : result value :=
  match v with
  | VDict d => Ok (get d k)
  | _ => Raise AttributeError
  end.

(** [v[k] = x] on an arbitrary object. *)
Definition store_subscript (v : value) (k : string) (x : value) : result value :=
  match v with
  | VDict d => Ok (VDict (dict_set k x d))
  | _ => Raise TypeError
  end.

(** ** Strings *)

(** [s.endswith(suffix)] *)
Fixpoint endswith (s suffix : string) : bool :=
  (s =? suffix) ||
  match s with
  | EmptyString => false
  | String _ s' => endswith s' suffix
  end.

(** [needle in hay] *)
Fixpoint contains (needle hay : string) : bool :=
  prefix needle hay ||
  match hay with
  | EmptyString => false
  | String _ hay' => contains needle hay'
  end.

(** [sep.join(parts)] *)
Fixpoint join (sep : string) (parts : list string) : string :=
  match parts with
  | [] => EmptyString
  | [p] => p
  | p :: rest => p ++ sep ++ join sep rest
  end.

(** ** The remote service

    [query_all_iter] is a lazy generator: it yields records one by one and
    then either is exhausted or raises. *)

Record stream : Type := {
  yielded : list dict;
  fault : option exn
}.

Record salesforce : Type := {
  describe : string -> result (option (list dict));
      (* [getattr(sf, name).describe()]; the payload is the "fields" entry
         of the describe result, [None] when the key is missing *)
  query : string -> result unit;
  query_all_iter : string -> stream
}.

(** ** Schema discovery: [discover_custom_fields] *)

Definition custom_suffix : string := "__c".

(** One iteration of the loop over [desc.get("fields", [])]. *)
Definition discover_step (f : dict) (fields : list string) : result (list string) :=
  let name := get f "name" in
  if negb (truthy name) then Ok fields
  else
    match name with
    | VStr s =>
        if negb (endswith s custom_suffix) then Ok fields
        else if truthy (get f "deprecatedAndHidden") then Ok fields
        else if has_key "queryable" f && negb (truthy (get f "queryable")) then Ok fields
        else Ok (fields ++ [s])%list
    | _ => Raise AttributeError          (* no [endswith] on a non-string *)
    end.

Fixpoint discover_loop (fs : list dict) (fields : list string) : result (list string) :=
  match fs with
  | [] => Ok fields
  | f :: fs' => fields' <- discover_step f fields ;; discover_loop fs' fields'
  end.

Definition discover_custom_fields (sf : salesforce) (sobject_name : string)
  : result (list string) :=
  desc <- describe sf sobject_name ;;
  discover_loop (match desc with Some fs => fs | None => [] end) [].

(** ** Capability probe: [detect_multi_currency] *)

Definition probe_soql : string := "SELECT Id, CurrencyIsoCode FROM PricebookEntry LIMIT 1".

Definition no_such_column : string :=
  "No such column 'CurrencyIsoCode' on entity 'PricebookEntry'".

Definition detect_multi_currency (sf : salesforce) : result bool :=
  match query sf probe_soql with
  | Ok _ => Ok true
  | Raise (SalesforceMalformedRequest msg) =>
      if contains no_such_column msg then Ok false
      else Raise (SalesforceMalformedRequest msg)
  | Raise e => Raise e
  end.

(** ** Query builder *)

Definition build_all_pricebooks_soql : string :=
  "SELECT " ++
  join ", " ["Id"; "Name"; "IsActive"; "IsStandard"; "Description";
             "CreatedDate"; "LastModifiedDate"] ++
  " FROM Pricebook2".

Definition pbe_core_fields : list string :=
  ["Id"; "Pricebook2Id"; "Product2Id"; "UnitPrice"; "IsActive"; "UseStandardPrice";
   "CreatedDate"; "LastModifiedDate";
   "Pricebook2.Id"; "Pricebook2.Name"; "Pricebook2.IsActive"; "Pricebook2.IsStandard";
   "Pricebook2.Description"; "Pricebook2.CreatedDate"; "Pricebook2.LastModifiedDate";
   "Product2.Name"; "Product2.ProductCode"; "Product2.Family"; "Product2.IsActive";
   "Product2.Description"].

(** Truth value of an optional string ([None] and the empty string are false). *)
Definition truthy_opt (o : option string) : bool :=
  match o with
  | Some s => negb (s =? EmptyString)
  | None => false
  end.

Definition build_flat_pbe_soql (include_currency_iso : bool)
    (pbe_custom_fields product2_custom_fields : list string)
    (pricebook2_id : option string) : string :=
  let fields := pbe_core_fields in
  let fields := if include_currency_iso then (fields ++ ["CurrencyIsoCode"])%list else fields in
  let fields := (fields ++ pbe_custom_fields)%list in
  let fields := (fields ++ map (fun f => ("Product2." ++ f)%string) product2_custom_fields)%list in
  let soql := "SELECT " ++ join ", " fields ++ " FROM PricebookEntry" in
  match pricebook2_id with
  | Some pid =>
      if truthy_opt pricebook2_id
      then soql ++ " WHERE Pricebook2Id = '" ++ pid ++ "'"
      else soql
  | None => soql
  end.

(** ** Configuration (module-level constants read from the environment) *)

Record config : Type := {
  SF_USERNAME : string;
  SF_PASSWORD : string;
  SF_SECURITY_TOKEN : string;
  SF_DOMAIN : string;
  OUTPUT_JSON_NAME : string;
  OUTPUT_CSV_NAME : string;
  PRICEBOOK2_ID : option string;
  INCLUDE_PRODUCT2_CUSTOM_FIELDS : bool
}.

(** ** Relationship access: [safe_rel] *)

Definition safe_rel (dct : dict) (rel_name key : string) (default : value) : value :=
  match get dct rel_name with
  | VDict rel => get_default rel key default
  | _ => default
  end.

(** ** The catalog index: [pricebooks_map]

    The keys of the index are hashed Python objects.  [True] and [1] (and
    [False] and [0]) are the same key; a dict is unhashable. *)

Inductive key : Type :=
| KNone
| KNum (n : Z)
| KStr (s : string).

Definition key_eqb (a b : key) : bool :=
  match a, b with
  | KNone, KNone => true
  | KNum x, KNum y => (x =? y)%Z
  | KStr x, KStr y => (x =? y)%string
  | _, _ => false
  end.

Definition hash_key (v : value) : result key :=
  match v with
  | VNone => Ok KNone
  | VBool b => Ok (KNum (if b then 1 else 0))
  | VNum n => Ok (KNum n)
  | VStr s => Ok (KStr s)
  | VDict _ => Raise TypeError
  end.

(** A price book of the index: a dict literal with eight fixed keys. *)
Record catalog : Type := {
  Id : value;
  Name : value;
  IsActive : value;
  IsStandard : value;
  Description : value;
  CreatedDate : value;
  LastModifiedDate : value;
  Entries : list dict
}.

Definition pricebooks_map : Type := list (key * catalog).

Fixpoint pb_lookup (k : key) (m : pricebooks_map) : option catalog :=
  match m with
  | [] => None
  | (k', c) :: m' => if key_eqb k' k then Some c else pb_lookup k m'
  end.

(** [k in pricebooks_map] *)
Definition pb_mem (k : key) (m : pricebooks_map) : bool :=
  match pb_lookup k m with Some _ => true | None => false end.

(** [pricebooks_map[k] = c]: the first key object inserted stays, and keeps
    its position. *)
Fixpoint pb_set (k : key) (c : catalog) (m : pricebooks_map) : pricebooks_map :=
  match m with
  | [] => [(k, c)]
  | (k', c') :: m' => if key_eqb k' k then (k', c) :: m' else (k', c') :: pb_set k c m'
  end.

Definition append_entry (entry : dict) (c : catalog) : catalog :=
  {| Id := Id c; Name := Name c; IsActive := IsActive c; IsStandard := IsStandard c;
     Description := Description c; CreatedDate := CreatedDate c;
     LastModifiedDate := LastModifiedDate c;
     Entries := (Entries c ++ [entry])%list |}.

(** [pricebooks_map[k]["Entries"].append(entry)] *)
Fixpoint pb_append (k : key) (entry : dict) (m : pricebooks_map) : result pricebooks_map :=
  match m with
  | [] => Raise (KeyError EmptyString)
  | (k', c) :: m' =>
      if key_eqb k' k then Ok ((k', append_entry entry c) :: m')
      else m'' <- pb_append k entry m' ;; Ok ((k', c) :: m'')
  end.

(** *** Preloading all price books *)

Definition preload_step (pb : dict) (m : pricebooks_map) : result pricebooks_map :=
  id <- getitem pb "Id" ;;
  k <- hash_key id ;;
  Ok (pb_set k
        {| Id := id; Name := get pb "Name"; IsActive := get pb "IsActive";
           IsStandard := get pb "IsStandard"; Description := get pb "Description";
           CreatedDate := get pb "CreatedDate";
           LastModifiedDate := get pb "LastModifiedDate"; Entries := [] |} m).

Fixpoint preload_loop (pbs : list dict) (m : pricebooks_map) : result pricebooks_map :=
  match pbs with
  | [] => Ok m
  | pb :: pbs' => m' <- preload_step pb m ;; preload_loop pbs' m'
  end.

Definition preload (s : stream) : result pricebooks_map :=
  m <- preload_loop (yielded s) [] ;;
  match fault s with
  | None => Ok m
  | Some e => Raise e
  end.

(** ** Column layout of the flat file *)

Definition core_cols : list string :=
  ["Pricebook.Id"; "Pricebook.Name"; "Entry.Id"; "Entry.Pricebook2Id"; "Entry.Product2Id";
   "Entry.UnitPrice"; "Entry.IsActive"; "Entry.UseStandardPrice"; "Entry.CreatedDate";
   "Entry.LastModifiedDate";
   "Product.Id"; "Product.Name"; "Product.ProductCode"; "Product.Family";
   "Product.IsActive"; "Product.Description"].

(** [l.insert(i, x)] *)
Definition list_insert {A} (i : nat) (x : A) (l : list A) : list A :=
  (firstn i l ++ x :: skipn i l)%list.

Definition base_cols (include_currency : bool) : list string :=
  if include_currency then list_insert 7 "Entry.CurrencyIsoCode" core_cols else core_cols.

(** [f"Entry.{f}"] and [f"Product.{f}"] *)
Definition entry_col (f : string) : string := "Entry." ++ f.
Definition product_col (f : string) : string := "Product." ++ f.

Definition dynamic_cols (include_product2 : bool)
    (pbe_custom_fields product2_custom_fields : list string) : list string :=
  (map entry_col pbe_custom_fields ++
   (if include_product2 then map product_col product2_custom_fields else []))%list.

Definition header_cols (include_currency include_product2 : bool)
    (pbe_custom_fields product2_custom_fields : list string) : list string :=
  (base_cols include_currency ++
   dynamic_cols include_product2 pbe_custom_fields product2_custom_fields)%list.

(** ** The streaming pass *)

Section Pass.
Variable include_currency : bool.
Variable include_product2 : bool.           (* INCLUDE_PRODUCT2_CUSTOM_FIELDS *)
Variable pbe_custom_fields : list string.
Variable product2_custom_fields : list string.

Definition resolve_pb_id (r : dict) : value :=
    py_or (safe_rel r "Pricebook2" "Id" VNone) (get r "Pricebook2Id").

Definition resolve_pb_name (r : dict) : value :=
    safe_rel r "Pricebook2" "Name" VNone.

  (** The catalog materialised from the attributes embedded in a record. *)
Definition catalog_of_record (pb_id pb_name : value) (r : dict) : catalog :=
    {| Id := pb_id; Name := pb_name;
       IsActive := safe_rel r "Pricebook2" "IsActive" VNone;
       IsStandard := safe_rel r "Pricebook2" "IsStandard" VNone;
       Description := safe_rel r "Pricebook2" "Description" VNone;
       CreatedDate := safe_rel r "Pricebook2" "CreatedDate" VNone;
       LastModifiedDate := safe_rel r "Pricebook2" "LastModifiedDate" VNone;
       Entries := [] |}.

Definition entry_literal (r : dict) : dict :=
    [("Id", get r "Id");
     ("Pricebook2Id", get r "Pricebook2Id");
     ("Product2Id", get r "Product2Id");
     ("UnitPrice", get r "UnitPrice");
     ("IsActive", get r "IsActive");
     ("UseStandardPrice", get r "UseStandardPrice");
     ("CreatedDate", get r "CreatedDate");
     ("LastModifiedDate", get r "LastModifiedDate");
     ("Product", VDict
        [("Id", get r "Product2Id");
         ("Name", safe_rel r "Product2" "Name" VNone);
         ("ProductCode", safe_rel r "Product2" "ProductCode" VNone);
         ("Family", safe_rel r "Product2" "Family" VNone);
         ("IsActive", safe_rel r "Product2" "IsActive" VNone);
         ("Description", safe_rel r "Product2" "Description" VNone)])].

  (** [for fcf in pbe_custom_fields: entry[fcf] = r.get(fcf)] *)
Definition set_entry_customs (r : dict) (fcfs : list string) (entry : dict) : dict :=
    fold_left (fun e fcf => dict_set fcf (get r fcf) e) fcfs entry.

  (** [for fcf in product2_custom_fields:
         entry["Product"][fcf] = safe_rel(r, "Product2", fcf)] *)
Fixpoint set_product_customs (r : dict) (fcfs : list string) (entry : dict) : result dict :=
    match fcfs with
    | [] => Ok entry
    | fcf :: fcfs' =>
        let x := safe_rel r "Product2" fcf VNone in
        product <- getitem entry "Product" ;;
        product' <- store_subscript product fcf x ;;
        set_product_customs r fcfs' (dict_set "Product" product' entry)
    end.

Definition build_entry (r : dict) : result dict :=
    let entry := entry_literal r in
    let entry :=
      if include_currency
      then dict_set "CurrencyIsoCode" (get r "CurrencyIsoCode") entry else entry in
    let entry := set_entry_customs r pbe_custom_fields entry in
    if include_product2 then set_product_customs r product2_custom_fields entry
    else Ok entry.

  (** [entry["Product"][k]] *)
Definition entry_product_item (entry : dict) (k : string) : result value :=
    product <- getitem entry "Product" ;; subscript product k.

Definition row_literal (pb_id pb_name : value) (entry : dict) : result dict :=
    e_id <- getitem entry "Id" ;;
    e_pb <- getitem entry "Pricebook2Id" ;;
    e_p2 <- getitem entry "Product2Id" ;;
    e_price <- getitem entry "UnitPrice" ;;
    e_active <- getitem entry "IsActive" ;;
    e_usp <- getitem entry "UseStandardPrice" ;;
    e_created <- getitem entry "CreatedDate" ;;
    e_modified <- getitem entry "LastModifiedDate" ;;
    p_id <- entry_product_item entry "Id" ;;
    p_name <- entry_product_item entry "Name" ;;
    p_code <- entry_product_item entry "ProductCode" ;;
    p_family <- entry_product_item entry "Family" ;;
    p_active <- entry_product_item entry "IsActive" ;;
    p_descr <- entry_product_item entry "Description" ;;
    Ok [("Pricebook.Id", pb_id);
        ("Pricebook.Name", pb_name);
        ("Entry.Id", e_id);
        ("Entry.Pricebook2Id", e_pb);
        ("Entry.Product2Id", e_p2);
        ("Entry.UnitPrice", e_price);
        ("Entry.IsActive", e_active);
        ("Entry.UseStandardPrice", e_usp);
        ("Entry.CreatedDate", e_created);
        ("Entry.LastModifiedDate", e_modified);
        ("Product.Id", p_id);
        ("Product.Name", p_name);
        ("Product.ProductCode", p_code);
        ("Product.Family", p_family);
        ("Product.IsActive", p_active);
        ("Product.Description", p_descr)].

  (** [for fcf in pbe_custom_fields: row[f"Entry.{fcf}"] = entry.get(fcf)] *)
Definition set_row_entry_customs (entry : dict) (fcfs : list string) (row : dict) : dict :=
    fold_left (fun w fcf => dict_set (entry_col fcf) (get entry fcf) w) fcfs row.

  (** [for fcf in product2_custom_fields:
         row[f"Product.{fcf}"] = entry["Product"].get(fcf)] *)
Fixpoint set_row_product_customs (entry : dict) (fcfs : list string) (row : dict)
    : result dict :=
    match fcfs with
    | [] => Ok row
    | fcf :: fcfs' =>
        product <- getitem entry "Product" ;;
        x <- method_get product fcf ;;
        set_row_product_customs entry fcfs' (dict_set (product_col fcf) x row)
    end.

Definition build_row (pb_id pb_name : value) (entry : dict) : result dict :=
    row <- row_literal pb_id pb_name entry ;;
    let row :=
      if include_currency
      then dict_set "Entry.CurrencyIsoCode" (get entry "CurrencyIsoCode") row else row in
    let row := set_row_entry_customs entry pbe_custom_fields row in
    if include_product2 then set_row_product_customs entry product2_custom_fields row
    else Ok row.

  (** The body of the loop over the record stream, up to the call of
      [writer.writerow(row)]: the new index and the row handed to the
      writer. *)
Definition process_record (m : pricebooks_map) (r : dict)
    : result (pricebooks_map * dict) :=
    let pb_id := resolve_pb_id r in
    let pb_name := resolve_pb_name r in
    k <- hash_key pb_id ;;
    let m := if pb_mem k m then m else pb_set k (catalog_of_record pb_id pb_name r) m in
    entry <- build_entry r ;;
    m <- pb_append k entry m ;;
    row <- build_row pb_id pb_name entry ;;
    Ok (m, row).

  (** The loop.  The rows already handed to the writer survive an
      exception; the index and the counter do not. *)
Fixpoint stream_loop (rs : list dict) (m : pricebooks_map) (rows : list dict)
      (total_entry_rows : nat) : list dict * result (pricebooks_map * nat) :=
    match rs with
    | [] => (rows, Ok (m, total_entry_rows))
    | r :: rs' =>
        let total_entry_rows := S total_entry_rows in
        match process_record m r with
        | Ok (m', row) => stream_loop rs' m' (rows ++ [row])%list total_entry_rows
        | Raise e => (rows, Raise e)
        end
    end.

  (** [for r in sf.query_all_iter(pbe_soql): ...] inside the [try]; the
      [except SalesforceMalformedRequest] clause prints and re-raises. *)
Definition stream_pass (s : stream) (m : pricebooks_map)
    : list dict * result (pricebooks_map * nat) :=
    match stream_loop (yielded s) m [] 0 with
    | (rows, Ok (m', n)) =>
        match fault s with
        | None => (rows, Ok (m', n))
        | Some e => (rows, Raise e)
        end
    | (rows, Raise e) => (rows, Raise e)
    end.
End Pass.

(** ** The [csv] module of the Python standard library

    The writer and the reader follow the [_csv] implementation of CPython
    3.11 (the writer escapes the escape character itself, and a line-break
    character forces quoting only when it occurs in the line terminator)
    for the dialect parameters the script sets.  Every dialect
    of the script keeps the defaults [doublequote=True],
    [skipinitialspace=False] and [strict=False]; these are built into the
    definitions below. *)

Module csv.

Definition LF : ascii := "010"%char.
Definition CR : ascii := "013"%char.
Definition TAB : ascii := "009"%char.
Definition DQUOTE : ascii := "034"%char.
Definition COMMA : ascii := ","%char.
Definition BACKSLASH : ascii := "\"%char.

Inductive quoting_style : Type := QUOTE_MINIMAL | QUOTE_ALL.

Record dialect : Type := {
    delimiter : ascii;
    quotechar : ascii;
    escapechar : option ascii;
    quoting : quoting_style;
    lineterminator : string
  }.

Definition is_escapechar (d : dialect) (c : ascii) : bool :=
    match escapechar d with
    | Some e => (c =? e)%char
    | None => false
    end.

Fixpoint in_string (c : ascii) (s : string) : bool :=
    match s with
    | EmptyString => false
    | String c' s' => (c =? c')%char || in_string c s'
    end.

  (** *** Writer *)

  (** The characters written for the data of one field, and whether the data
      force the field to be quoted ([join_append_data]). *)
Fixpoint field_data (d : dialect) (s : string) : string * bool :=
    match s with
    | EmptyString => (EmptyString, false)
    | String c s' =>
        let (body, q) := field_data d s' in
        if (c =? delimiter d)%char || is_escapechar d c || (c =? quotechar d)%char
           || in_string c (lineterminator d)
        then
          if (c =? quotechar d)%char
          then (String (quotechar d) (String c body), true)        (* doubled quote *)
          else
            match escapechar d with
            | Some e =>
                if (c =? e)%char
                then (String e (String c body), q)                 (* escaped escapechar *)
                else (String c body, true)
            | None => (String c body, true)
            end
        else (String c body, q)
    end.

  (** One field as it appears in the record ([join_append]). *)
Definition write_field (d : dialect) (s : string) : string :=
    let (body, q) := field_data d s in
    let quoted := match quoting d with QUOTE_ALL => true | QUOTE_MINIMAL => q end in
    if quoted then String (quotechar d) (body ++ String (quotechar d) EmptyString)
    else body.

Fixpoint join_fields (d : dialect) (fields : list string) : string :=
    match fields with
    | [] => EmptyString
    | [f] => f
    | f :: rest => f ++ String (delimiter d) (join_fields d rest)
    end.

  (** [writer.writerow(fields)]: the text appended to the file.  A record
      with one empty field would be written as an empty line; it is
      written as a quoted empty field instead. *)
Definition writerow (d : dialect) (fields : list string) : string :=
    let rec := join_fields d (map (write_field d) fields) in
    let rec :=
      match fields, rec with
      | _ :: _, EmptyString => String (quotechar d) (String (quotechar d) EmptyString)
      | _, _ => rec
      end in
    rec ++ lineterminator d.

  (** *** Reader *)

Inductive parser_state : Type :=
  | START_RECORD | START_FIELD | ESCAPED_CHAR | IN_FIELD | IN_QUOTED_FIELD
  | ESCAPE_IN_QUOTED_FIELD | QUOTE_IN_QUOTED_FIELD | EAT_CRNL | AFTER_ESCAPED_CRNL.

Record parser : Type := {
    state : parser_state;
    fields : list string;      (* the fields of the record read so far *)
    field : string             (* the field being read *)
  }.

Definition parse_reset : parser :=
    {| state := START_RECORD; fields := []; field := EmptyString |}.

Definition field_size_limit : N := 131072.

Inductive input : Type :=
  | Ch (c : ascii)
  | EOL.                       (* fed to the parser after every line *)

Definition is_newline (c : ascii) : bool := (c =? LF)%char || (c =? CR)%char.

Definition field_limit_message : string := "field larger than field limit (131072)".
Definition newline_message : string :=
    "new-line character seen in unquoted field - do you need to open the file with newline=''?".

Definition parse_add_char (p : parser) (st : parser_state) (c : ascii) : result parser :=
    if (field_size_limit <=? N.of_nat (String.length (field p)))%N
    then Raise (CsvError field_limit_message)
    else Ok {| state := st; fields := fields p;
               field := field p ++ String c EmptyString |}.

Definition parse_save_field (p : parser) (st : parser_state) : parser :=
    {| state := st; fields := (fields p ++ [field p])%list; field := EmptyString |}.

Definition set_state (p : parser) (st : parser_state) : parser :=
    {| state := st; fields := fields p; field := field p |}.

Definition end_of_line_state (i : input) : parser_state :=
    match i with EOL => START_RECORD | Ch _ => EAT_CRNL end.

Definition start_field (d : dialect) (p : parser) (i : input) : result parser :=
    match i with
    | EOL => Ok (parse_save_field p START_RECORD)
    | Ch c =>
        if is_newline c then Ok (parse_save_field p EAT_CRNL)
        else if (c =? quotechar d)%char then Ok (set_state p IN_QUOTED_FIELD)
        else if is_escapechar d c then Ok (set_state p ESCAPED_CHAR)
        else if (c =? delimiter d)%char then Ok (parse_save_field p START_FIELD)
        else parse_add_char p IN_FIELD c
    end.

Definition in_field (d : dialect) (p : parser) (i : input) : result parser :=
    match i with
    | EOL => Ok (parse_save_field p START_RECORD)
    | Ch c =>
        if is_newline c then Ok (parse_save_field p EAT_CRNL)
        else if is_escapechar d c then Ok (set_state p ESCAPED_CHAR)
        else if (c =? delimiter d)%char then Ok (parse_save_field p START_FIELD)
        else parse_add_char p IN_FIELD c
    end.

  (** [parse_process_char] *)
Definition parse_process_char (d : dialect) (p : parser) (i : input) : result parser :=
    match state p with
    | START_RECORD =>
        match i with
        | EOL => Ok p
        | Ch c =>
            if is_newline c then Ok (set_state p EAT_CRNL)
            else start_field d p i
        end
    | START_FIELD => start_field d p i
    | ESCAPED_CHAR =>
        match i with
        | EOL => parse_add_char p IN_FIELD LF
        | Ch c =>
            if is_newline c then parse_add_char p AFTER_ESCAPED_CRNL c
            else parse_add_char p IN_FIELD c
        end
    | AFTER_ESCAPED_CRNL =>
        match i with
        | EOL => Ok p
        | Ch _ => in_field d p i
        end
    | IN_FIELD => in_field d p i
    | IN_QUOTED_FIELD =>
        match i with
        | EOL => Ok p
        | Ch c =>
            if is_escapechar d c then Ok (set_state p ESCAPE_IN_QUOTED_FIELD)
            else if (c =? quotechar d)%char then Ok (set_state p QUOTE_IN_QUOTED_FIELD)
            else parse_add_char p IN_QUOTED_FIELD c
        end
    | ESCAPE_IN_QUOTED_FIELD =>
        match i with
        | EOL => parse_add_char p IN_QUOTED_FIELD LF
        | Ch c => parse_add_char p IN_QUOTED_FIELD c
        end
    | QUOTE_IN_QUOTED_FIELD =>
        match i with
        | EOL => Ok (parse_save_field p START_RECORD)
        | Ch c =>
            if (c =? quotechar d)%char then parse_add_char p IN_QUOTED_FIELD c
            else if (c =? delimiter d)%char then Ok (parse_save_field p START_FIELD)
            else if is_newline c then Ok (parse_save_field p EAT_CRNL)
            else parse_add_char p IN_FIELD c
        end
    | EAT_CRNL =>
        match i with
        | EOL => Ok (set_state p START_RECORD)
        | Ch c =>
            if is_newline c then Ok p
            else Raise (CsvError newline_message)
        end
    end.

Fixpoint parse_chars (d : dialect) (p : parser) (line : string) : result parser :=
    match line with
    | EmptyString => Ok p
    | String c line' => p' <- parse_process_char d p (Ch c) ;; parse_chars d p' line'
    end.

  (** One line of the input: its characters, then the end-of-line mark. *)
Definition parse_line (d : dialect) (p : parser) (line : string) : result parser :=
    p' <- parse_chars d p line ;; parse_process_char d p' EOL.

Definition is_start_record (st : parser_state) : bool :=
    match st with START_RECORD => true | _ => false end.

Definition is_in_quoted_field (st : parser_state) : bool :=
    match st with IN_QUOTED_FIELD => true | _ => false end.

  (** The rows the reader yields before it is exhausted or raises
      ([Reader_iternext], called until [StopIteration]). *)
Fixpoint reader_loop (d : dialect) (lines : list string) (p : parser)
      (rows : list (list string)) : list (list string) * option exn :=
    match lines with
    | [] =>
        if negb (String.length (field p) =? 0)%nat || is_in_quoted_field (state p)
        then ((rows ++ [fields (parse_save_field p START_RECORD)])%list, None)
        else (rows, None)
    | line :: lines' =>
        match parse_line d p line with
        | Raise e => (rows, Some e)
        | Ok p' =>
            if is_start_record (state p')
            then reader_loop d lines' parse_reset (rows ++ [fields p'])%list
            else reader_loop d lines' p' rows
        end
    end.

  (** The lines a text file opened with an empty [newline] iterates over: a line
      ends after a line feed, a carriage return, or the pair, and keeps its
      ending. *)
Fixpoint lines_of (text : string) (cur : string) : list string :=
    match text with
    | EmptyString => match cur with EmptyString => [] | _ => [cur] end
    | String c text' =>
        if (c =? LF)%char then (cur ++ String c EmptyString) :: lines_of text' EmptyString
        else if (c =? CR)%char then
          match text' with
          | String c2 text'' =>
              if (c2 =? LF)%char
              then (cur ++ String c (String c2 EmptyString)) :: lines_of text'' EmptyString
              else (cur ++ String c EmptyString) :: lines_of text' EmptyString
          | EmptyString => [cur ++ String c EmptyString]
          end
        else lines_of text' (cur ++ String c EmptyString)
    end.

  (** [list(csv.reader(f, ...))] over the text of [f]. *)
Definition reader (d : dialect) (text : string) : list (list string) * option exn :=
    reader_loop d (lines_of text EmptyString) parse_reset [].

  (** The default dialect with a line terminator of the caller's choice. *)
Definition excel (delim : ascii) (terminator : string) : dialect :=
    {| delimiter := delim; quotechar := DQUOTE; escapechar := None;
       quoting := QUOTE_MINIMAL; lineterminator := terminator |}.

End csv.

(** ** Document finalizer *)

Record document : Type := {
  exported_at : string;
  pricebook_count : nat;
  total_entry_count : nat;
  multi_currency : bool;
  included_custom_fields : list string * list string;   (* PricebookEntry, Product2 *)
  pricebooks : list catalog
}.

(** Order on the tuples [(int, str)] produced by [_pb_sort_key]. *)
Definition sort_key : Type := (nat * string)%type.

Definition sort_key_lt (a b : sort_key) : bool :=
  (fst a <? fst b)%nat || ((fst a =? fst b)%nat && String.ltb (snd a) (snd b)).

(** [sorted] is stable: an element goes before the first one that is not
    smaller than it, so elements with equal keys keep their order. *)
Fixpoint insert_by_key {A} (x : sort_key * A) (l : list (sort_key * A))
  : list (sort_key * A) :=
  match l with
  | [] => [x]
  | y :: l' => if sort_key_lt (fst y) (fst x) then y :: insert_by_key x l' else x :: y :: l'
  end.

Definition sort_by_key {A} (l : list (sort_key * A)) : list (sort_key * A) :=
  fold_right insert_by_key [] l.

(** [sum(...)] over a list of naturals *)
Definition sum (l : list nat) : nat := fold_left Nat.add l 0.

Section Finalizer.
  (** [str.lower] of the standard library. *)
Variable lower : string -> string.

Definition _pb_sort_key (pb : catalog) : result sort_key :=
    match py_or (Name pb) (VStr EmptyString) with
    | VStr s => Ok ((if truthy (IsStandard pb) then 0 else 1), lower s)
    | _ => Raise AttributeError              (* no [lower] on a non-string *)
    end.

  (** The keys are computed for every element before any comparison. *)
Fixpoint keyed (pbs : list catalog) : result (list (sort_key * catalog)) :=
    match pbs with
    | [] => Ok []
    | pb :: pbs' =>
        k <- _pb_sort_key pb ;;
        rest <- keyed pbs' ;;
        Ok ((k, pb) :: rest)
    end.

  (** [sorted(pricebooks_map.values(), key=_pb_sort_key)] *)
Definition sorted_pricebooks (m : pricebooks_map) : result (list catalog) :=
    ks <- keyed (map snd m) ;;
    Ok (map snd (sort_by_key ks)).

Definition build_document (now : string) (include_currency : bool)
      (pbe_custom_fields product2_custom_fields : list string)
      (pricebooks : list catalog) : document :=
    {| exported_at := now;
       pricebook_count := List.length pricebooks;
       total_entry_count := sum (map (fun pb => List.length (Entries pb)) pricebooks);
       multi_currency := include_currency;
       included_custom_fields := (pbe_custom_fields, product2_custom_fields);
       pricebooks := pricebooks |}.
End Finalizer.

(** ** Files

    A file system maps a path to the text of the file.  Opening for
    writing creates or truncates. *)

Definition fs : Type := list (string * string).

Definition write_file (path text : string) (files : fs) : fs := dict_set path text files.

Definition read_file (path : string) (files : fs) : result string :=
  match lookup path files with
  | Some text => Ok text
  | None => Raise (OtherError "FileNotFoundError")
  end.

(** [Path.suffix] and [Path.with_suffix] on a file name. *)
Fixpoint rfind_dot (s : string) : option nat :=
  match s with
  | EmptyString => None
  | String c s' =>
      match rfind_dot s' with
      | Some i => Some (S i)
      | None => if (c =? ".")%char then Some 0 else None
      end
  end.

Definition path_suffix (name : string) : string :=
  match rfind_dot name with
  | Some i =>
      if (0 <? i)%nat && (i <? String.length name - 1)%nat
      then substring i (String.length name - i) name
      else EmptyString
  | None => EmptyString
  end.

Definition with_suffix (name suffix : string) : string :=
  let old_suffix := path_suffix name in
  substring 0 (String.length name - String.length old_suffix) name ++ suffix.

(** ** Login *)

Record remote : Type := {
  login_outcome : option exn;     (* what the [Salesforce(...)] constructor raises *)
  service : salesforce;
  clock : string                  (* [datetime.now(timezone.utc).isoformat()] *)
}.

Definition require_env (cfg : config) : result unit :=
  let missing :=
    ((if SF_USERNAME cfg =? EmptyString then ["SF_USERNAME"] else []) ++
     (if SF_PASSWORD cfg =? EmptyString then ["SF_PASSWORD"] else []) ++
     (if SF_SECURITY_TOKEN cfg =? EmptyString then ["SF_SECURITY_TOKEN"] else []))%list in
  match missing with
  | [] => Ok tt
  | _ => Raise (RuntimeError
                  ("Missing required environment variables: " ++ join ", " missing))
  end.

Definition login_salesforce (cfg : config) (rem : remote) : result salesforce :=
  _ <- require_env cfg ;;
  match login_outcome rem with
  | None => Ok (service rem)
  | Some (SalesforceAuthenticationFailed details) =>
      Raise (RuntimeError ("Salesforce login failed. Details: " ++ details))
  | Some e => Raise e
  end.

(** ** The export: [main] *)

(** What a completed run has produced, besides the files: the header and
    the rows handed to the tabular writer, the counter of consumed records,
    and the document that was serialised. *)
Record report : Type := {
  flat_header : list string;
  flat_rows : list dict;
  total_entry_rows : nat;
  exported : document
}.

Section Main.
Variable py_str : value -> string.         (* [str(obj)] of a non-string object *)
Variable lower : string -> string.         (* [str.lower] *)
Variable json_dumps : document -> string.  (* [json.dumps(output, ...)] *)

  (** The text the csv writer produces for one cell object. *)
Definition cell_text (v : value) : string :=
    match v with
    | VNone => EmptyString
    | VStr s => s
    | _ => py_str v
    end.

  (** [DictWriter._dict_to_list] with [extrasaction="ignore"] and the
      default empty [restval] *)
Definition dict_to_list (fieldnames : list string) (row : dict) : list value :=
    map (fun k => get_default row k (VStr EmptyString)) fieldnames.

Definition flat_dialect : csv.dialect :=
    {| csv.delimiter := csv.COMMA; csv.quotechar := csv.DQUOTE;
       csv.escapechar := Some csv.BACKSLASH; csv.quoting := csv.QUOTE_ALL;
       csv.lineterminator := String csv.LF EmptyString |}.

  (** [csv.reader(fin)]: the default dialect *)
Definition read_dialect : csv.dialect :=
    csv.excel csv.COMMA (String csv.CR (String csv.LF EmptyString)).

Definition tsv_dialect : csv.dialect :=
    csv.excel csv.TAB (String csv.LF EmptyString).

  (** The cells of one data row as the writer receives them. *)
Definition row_cells (header : list string) (row : dict) : list string :=
    map cell_text (dict_to_list header row).

  (** The text of the flat file after the header and [rows] were written. *)
Definition flat_text (header : list string) (rows : list dict) : string :=
    csv.writerow flat_dialect header ++
    String.concat EmptyString (map (fun row => csv.writerow flat_dialect (row_cells header row)) rows).

Definition tsv_text (rows : list (list string)) : string :=
    String.concat EmptyString (map (csv.writerow tsv_dialect) rows).

Definition main (cfg : config) (rem : remote) (files : fs) : fs * result report :=
    match login_salesforce cfg rem with
    | Raise e => (files, Raise e)
    | Ok sf =>
    match discover_custom_fields sf "PricebookEntry" with
    | Raise e => (files, Raise e)
    | Ok pbe_custom_fields =>
    match (if INCLUDE_PRODUCT2_CUSTOM_FIELDS cfg
           then discover_custom_fields sf "Product2" else Ok []) with
    | Raise e => (files, Raise e)
    | Ok product2_custom_fields =>
    match detect_multi_currency sf with
    | Raise e => (files, Raise e)
    | Ok include_currency =>
    match preload (query_all_iter sf build_all_pricebooks_soql) with
    | Raise e => (files, Raise e)
    | Ok pricebooks_map0 =>
    let pbe_soql :=
      build_flat_pbe_soql include_currency pbe_custom_fields product2_custom_fields
        (PRICEBOOK2_ID cfg) in
    let header :=
      header_cols include_currency (INCLUDE_PRODUCT2_CUSTOM_FIELDS cfg)
        pbe_custom_fields product2_custom_fields in
    let out_json := OUTPUT_JSON_NAME cfg in
    let out_csv := OUTPUT_CSV_NAME cfg in
    (* the streaming pass, with the flat file open for writing *)
    let (rows, outcome) :=
      stream_pass include_currency (INCLUDE_PRODUCT2_CUSTOM_FIELDS cfg)
        pbe_custom_fields product2_custom_fields (query_all_iter sf pbe_soql)
        pricebooks_map0 in
    let files := write_file out_csv (flat_text header rows) files in
    match outcome with
    | Raise e => (files, Raise e)
    | Ok (pricebooks_map1, total) =>
    (* extra TSV *)
    let tsv_path := with_suffix out_csv ".tsv" in
    let files := write_file tsv_path EmptyString files in
    match read_file out_csv files with
    | Raise e => (files, Raise e)
    | Ok text =>
    let (read_rows, failure) := csv.reader read_dialect text in
    let files := write_file tsv_path (tsv_text read_rows) files in
    match failure with
    | Some e => (files, Raise e)
    | None =>
    (* count of the physical lines, printed only *)
    match read_file out_csv files with
    | Raise e => (files, Raise e)
    | Ok text =>
    match csv.reader read_dialect text with
    | (_, Some e) => (files, Raise e)
    | (verified, None) =>
    (* sort and write JSON *)
    match sorted_pricebooks lower pricebooks_map1 with
    | Raise e => (files, Raise e)
    | Ok pricebooks =>
    let output :=
      build_document (clock rem) include_currency pbe_custom_fields
        product2_custom_fields pricebooks in
    let files := write_file out_json (json_dumps output) files in
    (files, Ok {| flat_header := header; flat_rows := rows;
                  total_entry_rows := total; exported := output |})
    end end end end end end end end end end end.

  (** The script entry point: any exception is reported and the process
      exits with status 1. *)
Definition script (cfg : config) (rem : remote) (files : fs) : fs * Z :=
    match main cfg rem files with
    | (files', Ok _) => (files', 0%Z)
    | (files', Raise _) => (files', 1%Z)
    end.
End Main.

(** * Specification vocabulary

    The notions the properties below are stated with. *)

(** A field descriptor as the schema discoverer's contract selects it: the
    name has the custom suffix, the field is not flagged deprecated and
    hidden, and the queryable flag is true or absent. *)
Definition selected_custom_field (f : dict) : option string :=
  match get f "name" with
  | VStr s =>
      if endswith s custom_suffix
         && negb (truthy (get f "deprecatedAndHidden"))
         && (negb (has_key "queryable" f) || truthy (get f "queryable"))
      then Some s else None
  | _ => None
  end.

Fixpoint filter_map {A B} (f : A -> option B) (l : list A) : list B :=
  match l with
  | [] => []
  | x :: l' => match f x with Some y => y :: filter_map f l' | None => filter_map f l' end
  end.

(** A value that is text, or is missing or otherwise false. *)
Definition text_or_falsy (v : value) : Prop :=
  match v with
  | VStr _ => True
  | _ => truthy v = false
  end.

(** The name of a descriptor is text, or is missing or empty. *)
Definition name_is_text (f : dict) : Prop := text_or_falsy (get f "name").

(** The two parts of the finalizer's business key: standard catalogs
    first, then the name, case-folded, a missing name counting as empty. *)
Definition rank (c : catalog) : nat := if truthy (IsStandard c) then 0 else 1.

Definition name_or_empty (c : catalog) : string :=
  match py_or (Name c) (VStr EmptyString) with
  | VStr s => s
  | _ => EmptyString
  end.

Definition catalog_le (lower : string -> string) (a b : catalog) : Prop :=
  (rank a < rank b)%nat \/
  (rank a = rank b /\ String.leb (lower (name_or_empty a)) (lower (name_or_empty b)) = true).

(** Lower case of the ASCII letters, for the examples. *)
Definition ascii_lower_char (c : ascii) : ascii :=
  let n := nat_of_ascii c in
  if (65 <=? n)%nat && (n <=? 90)%nat then ascii_of_nat (n + 32) else c.

Fixpoint ascii_lower (s : string) : string :=
  match s with
  | EmptyString => EmptyString
  | String c s' => String (ascii_lower_char c) (ascii_lower s')
  end.

(** The catalogs of the sort-order example. *)
Definition example_catalog (name : string) (standard : bool) : catalog :=
  {| Id := VStr name; Name := VStr name; IsActive := VBool true;
     IsStandard := VBool standard; Description := VNone; CreatedDate := VNone;
     LastModifiedDate := VNone; Entries := [] |}.

Definition example_index : pricebooks_map :=
  [(KStr "Zeta", example_catalog "Zeta" false);
   (KStr "alpha", example_catalog "alpha" false);
   (KStr "Base", example_catalog "Base" true)].

(** ** Vocabulary of the index, the entry and the row *)

(** The order the sort establishes on keyed elements. *)
Definition keyed_le {A} (a b : sort_key * A) : Prop := sort_key_lt (fst b) (fst a) = false.

(** The effect of one processed record on the index: the entry goes to the
    end of the entry list of the catalog with key [k]; when there is no such
    catalog, [c0] is added at the end of the index first. *)
Fixpoint index_add (k : key) (c0 : catalog) (entry : dict) (m : pricebooks_map)
  : pricebooks_map :=
  match m with
  | [] => [(k, append_entry entry c0)]
  | (k', c) :: m' =>
      if key_eqb k' k then (k', append_entry entry c) :: m'
      else (k', c) :: index_add k c0 entry m'
  end.

(** The entry list filed under a key. *)
Definition entries_of (k : key) (m : pricebooks_map) : list dict :=
  match pb_lookup k m with
  | Some c => Entries c
  | None => []
  end.

Definition entry_core_keys : list string :=
  ["Id"; "Pricebook2Id"; "Product2Id"; "UnitPrice"; "IsActive"; "UseStandardPrice";
   "CreatedDate"; "LastModifiedDate"].

Definition product_core_keys : list string :=
  ["Id"; "Name"; "ProductCode"; "Family"; "IsActive"; "Description"].

(** The product embedded in a nested entry. *)
Definition product_of (entry : dict) : dict :=
  match get entry "Product" with
  | VDict p => p
  | _ => []
  end.

(** A well-formed nested entry: the core attributes are present and the
    embedded product is a dict with its core attributes. *)
Definition entry_shaped (e : dict) : Prop :=
  Forall (fun f => has_key f e = true) entry_core_keys /\
  exists p, lookup "Product" e = Some (VDict p) /\
            Forall (fun f => has_key f p = true) product_core_keys.

Definition mem_string (k : string) (l : list string) : bool := existsb (String.eqb k) l.

(** An object that can be a key of the index. *)
Definition hashable (v : value) : Prop :=
  match v with
  | VDict _ => False
  | _ => True
  end.

Definition key_of (v : value) : key :=
  match hash_key v with
  | Ok k => k
  | Raise _ => KNone
  end.

(** The key of the catalog a record is filed under. *)
Definition record_key (r : dict) : key := key_of (resolve_pb_id r).

(** Every catalog of the index is filed under the key of its identity, and
    no key occurs twice. *)
Definition index_wf (m : pricebooks_map) : Prop :=
  NoDup (map fst m) /\ Forall (fun kc => hash_key (Id (snd kc)) = Ok (fst kc)) m.

Definition all_empty (m : pricebooks_map) : Prop :=
  Forall (fun kc => Entries (snd kc) = []) m.


Definition all_entries (m : pricebooks_map) : list dict :=
  concat (map (fun kc => Entries (snd kc)) m).

(** The attributes of a catalog other than its entry list. *)
Definition attributes (c : catalog) : list value :=
  [Id c; Name c; IsActive c; IsStandard c; Description c; CreatedDate c;
   LastModifiedDate c].

(** The product attributes after the custom ones were stored. *)
Definition product_customs (r : dict) (fcfs : list string) (p : dict) : dict :=
  fold_left (fun p fcf => dict_set fcf (safe_rel r "Product2" fcf VNone) p) fcfs p.

Definition product_literal (r : dict) : dict := product_of (entry_literal r).

(** The row literal, with the values read from the nested entry. *)
Definition row_core (pb_id pb_name : value) (e : dict) : dict :=
  let p := product_of e in
  [("Pricebook.Id", pb_id);
   ("Pricebook.Name", pb_name);
   ("Entry.Id", get e "Id");
   ("Entry.Pricebook2Id", get e "Pricebook2Id");
   ("Entry.Product2Id", get e "Product2Id");
   ("Entry.UnitPrice", get e "UnitPrice");
   ("Entry.IsActive", get e "IsActive");
   ("Entry.UseStandardPrice", get e "UseStandardPrice");
   ("Entry.CreatedDate", get e "CreatedDate");
   ("Entry.LastModifiedDate", get e "LastModifiedDate");
   ("Product.Id", get p "Id");
   ("Product.Name", get p "Name");
   ("Product.ProductCode", get p "ProductCode");
   ("Product.Family", get p "Family");
   ("Product.IsActive", get p "IsActive");
   ("Product.Description", get p "Description")].




Section PassVocabulary.
Variable include_currency : bool.
Variable include_product2 : bool.
Variable pbe_custom_fields : list string.
Variable product2_custom_fields : list string.

(** The entry before the product customs are stored. *)
Definition entry_top (r : dict) : dict :=
  set_entry_customs r pbe_custom_fields
    (if include_currency
     then dict_set "CurrencyIsoCode" (get r "CurrencyIsoCode") (entry_literal r)
     else entry_literal r).

Definition product_final (r : dict) : dict :=
  if include_product2 then product_customs r product2_custom_fields (product_literal r)
  else product_literal r.

(** The row dict handed to the writer, as a function of the parent
    identity, the parent name and the nested entry. *)
Definition row_of (pb_id pb_name : value) (e : dict) : dict :=
  let row := row_core pb_id pb_name e in
  let row :=
    if include_currency
    then dict_set "Entry.CurrencyIsoCode" (get e "CurrencyIsoCode") row else row in
  let row := set_row_entry_customs e pbe_custom_fields row in
  if include_product2
  then fold_left (fun w fcf => dict_set (product_col fcf) (get (product_of e) fcf) w)
         product2_custom_fields row
  else row.

(** The nested entry of a record. *)
Definition nested_entry (r : dict) : dict :=
  match build_entry include_currency include_product2 pbe_custom_fields
          product2_custom_fields r with
  | Ok e => e
  | Raise _ => []
  end.

(** The flat row of a record. *)
Definition flat_row (r : dict) : dict :=
  row_of (resolve_pb_id r) (resolve_pb_name r) (nested_entry r).

Definition index_step (m : pricebooks_map) (r : dict) : pricebooks_map :=
  index_add (record_key r)
    (catalog_of_record (resolve_pb_id r) (resolve_pb_name r) r) (nested_entry r) m.

(** The index after the records [rs] were processed. *)
Definition index_after (rs : list dict) (m : pricebooks_map) : pricebooks_map :=
  fold_left index_step rs m.

End PassVocabulary.

(** ** Vocabulary of a run *)

(** The record stream of the run: the answer to the joined query. *)
Definition entry_stream (cfg : config) (rem : remote) (cur : bool)
    (pbe p2 : list string) : stream :=
  query_all_iter (service rem) (build_flat_pbe_soql cur pbe p2 (PRICEBOOK2_ID cfg)).

(** The catalog listing of the run. *)
Definition catalog_listing (rem : remote) : stream :=
  query_all_iter (service rem) build_all_pricebooks_soql.

Definition run_cur (rep : report) : bool := multi_currency (exported rep).

Definition run_pbe (rep : report) : list string := fst (included_custom_fields (exported rep)).

Definition run_p2 (rep : report) : list string := snd (included_custom_fields (exported rep)).

(** The records of a completed run, recovered from its report. *)
Definition run_records (cfg : config) (rem : remote) (rep : report) : list dict :=
  yielded (entry_stream cfg rem (multi_currency (exported rep))
             (fst (included_custom_fields (exported rep)))
             (snd (included_custom_fields (exported rep)))).

(** The nested entry and the flat row the run builds for a record. *)
Definition run_entry (cfg : config) (rep : report) : dict -> dict :=
  nested_entry (run_cur rep) (INCLUDE_PRODUCT2_CUSTOM_FIELDS cfg) (run_pbe rep) (run_p2 rep).

Definition run_row (cfg : config) (rep : report) : dict -> dict :=
  flat_row (run_cur rep) (INCLUDE_PRODUCT2_CUSTOM_FIELDS cfg) (run_pbe rep) (run_p2 rep).

(** ** Example runs *)

Definition example_cfg : config :=
  {| SF_USERNAME := "user@example.com"; SF_PASSWORD := "secret";
     SF_SECURITY_TOKEN := "token"; SF_DOMAIN := "login";
     OUTPUT_JSON_NAME := "pricebooks_export.json";
     OUTPUT_CSV_NAME := "pricebooks_export.csv";
     PRICEBOOK2_ID := None;
     INCLUDE_PRODUCT2_CUSTOM_FIELDS := true |}.

Definition example_describe (sobject_name : string) : result (option (list dict)) :=
  if sobject_name =? "PricebookEntry"
  then Ok (Some [[("name", VStr "Id")];
                 [("name", VStr "Discount__c"); ("queryable", VBool true)];
                 [("name", VStr "Legacy__c"); ("deprecatedAndHidden", VBool true)];
                 [("name", VStr "Hidden__c"); ("queryable", VBool false)];
                 [("name", VStr "Tier__c")]])
  else Ok (Some [[("name", VStr "Name")]; [("name", VStr "Color__c")]]).

Definition example_listing : list dict :=
  [[("Id", VStr "pbZ"); ("Name", VStr "Zeta"); ("IsActive", VBool true);
    ("IsStandard", VBool false)];
   [("Id", VStr "pbA"); ("Name", VStr "alpha"); ("IsActive", VBool true);
    ("IsStandard", VBool false)];
   [("Id", VStr "pbB"); ("Name", VStr "Base"); ("IsActive", VBool true);
    ("IsStandard", VBool true)]].

Definition example_record (id pb product : string) (price : Z) (parent : option string)
  : dict :=
  ([("Id", VStr id); ("Pricebook2Id", VStr pb); ("Product2Id", VStr product);
    ("UnitPrice", VNum price); ("IsActive", VBool true); ("UseStandardPrice", VBool false);
    ("CurrencyIsoCode", VStr "EUR"); ("Discount__c", VNum 5);
    ("Product2", VDict [("Name", VStr "Widget, large"); ("ProductCode", VStr "W-1");
                        ("Color__c", VStr "red")])] ++
   match parent with
   | Some name => [("Pricebook2", VDict [("Id", VStr pb); ("Name", VStr name)])]
   | None => []
   end)%list.

Definition example_records : list dict :=
  [example_record "e1" "pbZ" "p1" 10 (Some "Zeta");
   example_record "e2" "pbX" "p1" 12 None;
   example_record "e3" "pbZ" "p2" 7 (Some "Zeta")].

Definition example_service (probe : result unit) (entries : stream) : salesforce :=
  {| describe := example_describe;
     query := fun _ => probe;
     query_all_iter := fun soql =>
       if soql =? build_all_pricebooks_soql
       then {| yielded := example_listing; fault := None |}
       else entries |}.

Definition example_remote : remote :=
  {| login_outcome := None;
     service := example_service (Ok tt) {| yielded := example_records; fault := None |};
     clock := "2024-01-01T00:00:00+00:00" |}.

(** Stand-ins for the library functions in the example. *)
Definition example_str (v : value) : string :=
  match v with
  | VBool true => "True"
  | VBool false => "False"
  | VNum n => DecimalString.NilZero.string_of_int (Z.to_int n)
  | _ => "{}"
  end.

Definition example_dumps (doc : document) : string :=
  join "," (map (fun c => match Name c with VStr s => s | _ => EmptyString end)
              (pricebooks doc)).

Definition example_run : fs * result report :=
  main example_str ascii_lower example_dumps example_cfg example_remote [].

Definition empty_document : document :=
  {| exported_at := EmptyString; pricebook_count := 0; total_entry_count := 0;
     multi_currency := false; included_custom_fields := ([], []); pricebooks := [] |}.

Definition example_report : report :=
  match snd example_run with
  | Ok rep => rep
  | Raise _ => {| flat_header := []; flat_rows := []; total_entry_rows := 0;
                  exported := empty_document |}
  end.

Definition example_cfg_restricted : config :=
  {| SF_USERNAME := "user@example.com"; SF_PASSWORD := "secret";
     SF_SECURITY_TOKEN := "token"; SF_DOMAIN := "login";
     OUTPUT_JSON_NAME := "pricebooks_export.json";
     OUTPUT_CSV_NAME := "pricebooks_export.csv";
     PRICEBOOK2_ID := Some "pbZ";
     INCLUDE_PRODUCT2_CUSTOM_FIELDS := true |}.

Definition example_remote_restricted : remote :=
  {| login_outcome := None;
     service := example_service (Ok tt)
                  {| yielded := [example_record "e1" "pbZ" "p1" 10 (Some "Zeta");
                                 example_record "e3" "pbZ" "p2" 7 (Some "Zeta")];
                     fault := None |};
     clock := "2024-01-01T00:00:00+00:00" |}.

Definition example_run_restricted : fs * result report :=
  main example_str ascii_lower example_dumps example_cfg_restricted
    example_remote_restricted [].

Definition example_report_restricted : report :=
  match snd example_run_restricted with
  | Ok rep => rep
  | Raise _ => {| flat_header := []; flat_rows := []; total_entry_rows := 0;
                  exported := empty_document |}
  end.

Definition example_remote_faulty : remote :=
  {| login_outcome := None;
     service := example_service (Ok tt)
                  {| yielded := [example_record "e1" "pbZ" "p1" 10 (Some "Zeta");
                                 example_record "e2" "pbX" "p1" 12 None];
                     fault := Some (SalesforceMalformedRequest "Malformed request") |};
     clock := "2024-01-01T00:00:00+00:00" |}.

(** Re-reading the derived file: [csv.reader(f, delimiter="\t")]. *)
Definition tsv_read_dialect : csv.dialect :=
  csv.excel csv.TAB (String csv.CR (String csv.LF EmptyString)).

Definition example_record_named (id name : string) : dict :=
  [("Id", VStr id); ("Pricebook2Id", VStr "pbZ"); ("Product2Id", VStr "p1");
   ("Pricebook2", VDict [("Id", VStr "pbZ"); ("Name", VStr "Zeta")]);
   ("Product2", VDict [("Name", VStr name)])].

Definition example_remote_special : remote :=
  {| login_outcome := None;
     service := example_service (Ok tt)
                  {| yielded := [example_record_named "e1" "C:\tmp";
                                 example_record_named "e2"
                                   ("a" ++ String csv.CR "b")];
                     fault := None |};
     clock := "2024-01-01T00:00:00+00:00" |}.

Definition example_run_special : fs * result report :=
  main example_str ascii_lower example_dumps example_cfg example_remote_special [].

(** The column of the product name in the layout of the example. *)
Definition product_name_cells (rows : list (list string)) : list string :=
  map (fun cells => nth 12 cells EmptyString) rows.

Definition file_text (path : string) (files : fs) : string :=
  match lookup path files with
  | Some text => text
  | None => EmptyString
  end.

(** ** The reader of the [csv] module, character by character *)

Module csv_scan.
Import csv.

Definition starts_with_lf (text : string) : bool :=
  match text with
  | String c _ => (c =? LF)%char
  | EmptyString => false
  end.

(** What the reader does at the end of the input. *)
Definition at_eof (p : parser) (rows : list (list string)) : list (list string) * option exn :=
  if negb (String.length (field p) =? 0)%nat || is_in_quoted_field (state p)
  then ((rows ++ [fields (parse_save_field p START_RECORD)])%list, None)
  else (rows, None).

(** The end of a line: the parser sees the end-of-line mark, and a
    completed record is handed out. *)
Definition end_line (d : dialect) (p : parser) (rows : list (list string))
    (k : parser -> list (list string) -> list (list string) * option exn)
  : list (list string) * option exn :=
  match parse_process_char d p EOL with
  | Raise e => (rows, Some e)
  | Ok p' =>
      if is_start_record (state p') then k parse_reset (rows ++ [fields p'])%list
      else k p' rows
  end.

(** The reader, character by character: [pending] tells whether the
    current line already has characters. *)
Fixpoint scan (d : dialect) (text : string) (p : parser) (pending : bool)
    (rows : list (list string)) : list (list string) * option exn :=
  match text with
  | EmptyString =>
      if pending then end_line d p rows at_eof else at_eof p rows
  | String c text' =>
      match parse_process_char d p (Ch c) with
      | Raise e => (rows, Some e)
      | Ok p1 =>
          if (c =? LF)%char || ((c =? CR)%char && negb (starts_with_lf text'))
          then end_line d p1 rows (fun p2 rows' => scan d text' p2 false rows')
          else scan d text' p1 true rows
      end
  end.

(** The value the reader of the flat file recovers for a cell the writer
    was given: every backslash comes back doubled. *)
Fixpoint read_back (s : string) : string :=
  match s with
  | EmptyString => EmptyString
  | String c s' =>
      if (c =? BACKSLASH)%char then String c (String c (read_back s'))
      else String c (read_back s')
  end.

(** The cell, as read back, is within the field size limit of the reader. *)
Definition fits (s : string) : Prop :=
  (N.of_nat (String.length (read_back s)) <= field_size_limit)%N.

Definition quoted_parser (fs : list string) (f : string) : parser :=
  {| state := IN_QUOTED_FIELD; fields := fs; field := f |}.

Definition after_quote_parser (fs : list string) (f : string) : parser :=
  {| state := QUOTE_IN_QUOTED_FIELD; fields := fs; field := f |}.

(** A parser that expects a field: at the start of a record or after a
    delimiter, with nothing of the field read yet. *)
Definition expects_field (p : parser) : Prop :=
  (state p = START_FIELD \/ (state p = START_RECORD /\ fields p = [])) /\
  field p = EmptyString.

End csv_scan.

(** * Properties *)

(** ** Strings *)

Lemma prefix_app (p s : string) : prefix p (p ++ s) = true.
Proof.
  induction p as [|c p IH]; simpl.
  - destruct s; reflexivity.
  - destruct (ascii_dec c c) as [_|n]; [exact IH | contradiction].
Qed.

Lemma prefix_inv (p s : string) : prefix p s = true -> exists t, s = p ++ t.
Proof.
  revert s; induction p as [|c p IH]; intros s H.
  - exists s; reflexivity.
  - destruct s as [|c' s]; simpl in H; [discriminate|].
    destruct (ascii_dec c c') as [->|]; [|discriminate].
    destruct (IH _ H) as [t ->]. exists t; reflexivity.
Qed.

(** [contains] is the substring test. *)
Lemma contains_iff (needle hay : string) :
  contains needle hay = true <-> exists pre post, hay = pre ++ needle ++ post.
Proof.
  split.
  - induction hay as [|c hay IH]; cbn [contains]; intros H;
      apply orb_true_iff in H as [H|H]; try discriminate.
    + apply prefix_inv in H as [t ->]. exists EmptyString, t; reflexivity.
    + apply prefix_inv in H as [t Ht]. exists EmptyString, t; exact Ht.
    + destruct (IH H) as (pre & post & ->). exists (String c pre), post; reflexivity.
  - intros (pre & post & ->). induction pre as [|c pre IH].
    + change (EmptyString ++ needle ++ post) with (needle ++ post).
      destruct (needle ++ post) eqn:E; cbn [contains];
        rewrite <- E, prefix_app; reflexivity.
    + change (String c pre ++ needle ++ post) with (String c (pre ++ needle ++ post)).
      cbn [contains]. rewrite IH. apply orb_true_r.
Qed.

(** [endswith] is the suffix test. *)
Lemma endswith_iff (s suffix : string) :
  endswith s suffix = true <-> exists pre, s = pre ++ suffix.
Proof.
  split.
  - induction s as [|c s IH]; cbn [endswith]; intros H;
      apply orb_true_iff in H as [H|H]; try discriminate.
    + apply String.eqb_eq in H as <-. exists EmptyString; reflexivity.
    + apply String.eqb_eq in H as <-. exists EmptyString; reflexivity.
    + destruct (IH H) as [pre ->]. exists (String c pre); reflexivity.
  - intros [pre ->]. induction pre as [|c pre IH].
    + change (EmptyString ++ suffix) with suffix.
      destruct suffix; cbn [endswith]; rewrite String.eqb_refl; reflexivity.
    + change (String c pre ++ suffix) with (String c (pre ++ suffix)).
      cbn [endswith]. rewrite IH. apply orb_true_r.
Qed.

(** ** Capability probe *)

(** C4.  The probe answers true exactly when the probe query succeeds; it
    answers false exactly when the query raises a malformed-request fault
    whose message contains the missing-column signature; every other fault
    of the query (a malformed request with another message, an
    authentication failure, a network fault) is raised again unchanged. *)
Theorem detect_multi_currency_spec (sf : salesforce) :
  (detect_multi_currency sf = Ok true <-> exists u, query sf probe_soql = Ok u) /\
  (detect_multi_currency sf = Ok false <->
     exists msg, query sf probe_soql = Raise (SalesforceMalformedRequest msg) /\
                 exists pre post, msg = pre ++ no_such_column ++ post) /\
  (forall e, query sf probe_soql = Raise e ->
     (forall msg, e = SalesforceMalformedRequest msg ->
                  contains no_such_column msg = false) ->
     detect_multi_currency sf = Raise e).
Proof.
  unfold detect_multi_currency.
  destruct (query sf probe_soql) as [u|e] eqn:Q.
  - split; [|split].
    + split; [intros _; exists u; reflexivity | reflexivity].
    + split; [discriminate | intros (msg & H & _); discriminate].
    + intros e H; discriminate.
  - split; [|split].
    + split.
      * destruct e; try discriminate.
        destruct (contains no_such_column msg); discriminate.
      * intros [u H]; discriminate.
    + split.
      * destruct e; try discriminate.
        destruct (contains no_such_column msg) eqn:C; [|discriminate].
        intros _. exists msg. split; [reflexivity|]. apply contains_iff, C.
      * intros (msg & H & Hsub). injection H as ->.
        apply contains_iff in Hsub. rewrite Hsub. reflexivity.
    + intros e' H Hno. injection H as <-.
      destruct e; try reflexivity.
      rewrite (Hno msg eq_refl). reflexivity.
Qed.

(** ** Schema discovery *)

Lemma discover_step_selected (f : dict) (fields : list string) :
  name_is_text f ->
  discover_step f fields =
  Ok (match selected_custom_field f with
      | Some s => fields ++ [s]
      | None => fields
      end)%list.
Proof.
  unfold name_is_text, discover_step, selected_custom_field.
  destruct (get f "name") as [|b|n|s|d] eqn:N; simpl; intros H;
    try (rewrite H; reflexivity); try reflexivity.
  destruct (negb (s =? EmptyString)) eqn:E; simpl.
  - destruct (endswith s custom_suffix); simpl; [|reflexivity].
    destruct (truthy (get f "deprecatedAndHidden")); simpl; [reflexivity|].
    destruct (has_key "queryable" f); simpl; [|reflexivity].
    destruct (truthy (get f "queryable")); reflexivity.
  - apply negb_false_iff, String.eqb_eq in E. subst s. reflexivity.
Qed.

Lemma discover_loop_selected (fs : list dict) (fields : list string) :
  Forall name_is_text fs ->
  discover_loop fs fields = Ok (fields ++ filter_map selected_custom_field fs)%list.
Proof.
  intros H; revert fields; induction H as [|f fs Hf _ IH]; intros fields; simpl.
  - rewrite app_nil_r; reflexivity.
  - rewrite (discover_step_selected f fields Hf). simpl.
    rewrite IH. destruct (selected_custom_field f); [|reflexivity].
    rewrite <- app_assoc. reflexivity.
Qed.

(** C8.  Given a describe result whose field names are text, the schema
    discoverer returns exactly the names that end with the custom suffix,
    are not flagged deprecated and hidden, and report queryable as true or
    omit the flag, in the order of the describe result. *)
Theorem discover_custom_fields_selected (sf : salesforce) (sobject_name : string)
    (fs : option (list dict)) :
  describe sf sobject_name = Ok fs ->
  Forall name_is_text (match fs with Some l => l | None => [] end) ->
  discover_custom_fields sf sobject_name =
  Ok (filter_map selected_custom_field (match fs with Some l => l | None => [] end)).
Proof.
  intros D H. unfold discover_custom_fields. rewrite D. simpl.
  apply (discover_loop_selected _ [] H).
Qed.

(** ** Sort order of the finalizer *)

Lemma ascii_compare_lt_trans (a b c : ascii) :
  Ascii.compare a b = Lt -> Ascii.compare b c = Lt -> Ascii.compare a c = Lt.
Proof.
  unfold Ascii.compare. rewrite !N.compare_lt_iff. lia.
Qed.

Lemma ascii_compare_refl (a : ascii) : Ascii.compare a a = Eq.
Proof. unfold Ascii.compare. apply N.compare_refl. Qed.

Lemma string_compare_refl (a : string) : String.compare a a = Eq.
Proof.
  induction a as [|x a IH]; simpl; [reflexivity|].
  rewrite ascii_compare_refl. exact IH.
Qed.

Lemma string_compare_lt_trans (a b c : string) :
  String.compare a b = Lt -> String.compare b c = Lt -> String.compare a c = Lt.
Proof.
  revert b c; induction a as [|x a IH]; intros [|y b] [|z c]; simpl;
    try discriminate; try reflexivity.
  destruct (Ascii.compare x y) eqn:XY; try discriminate;
    destruct (Ascii.compare y z) eqn:YZ; try discriminate; intros H1 H2.
  - apply Ascii.compare_eq_iff in XY, YZ. subst.
    rewrite ascii_compare_refl. eapply IH; eassumption.
  - apply Ascii.compare_eq_iff in XY. subst. rewrite YZ. reflexivity.
  - apply Ascii.compare_eq_iff in YZ. subst. rewrite XY. reflexivity.
  - rewrite (ascii_compare_lt_trans _ _ _ XY YZ). reflexivity.
Qed.

Lemma string_ltb_asym (a b : string) : String.ltb a b = true -> String.ltb b a = false.
Proof.
  unfold String.ltb. rewrite (String.compare_antisym a b).
  destruct (String.compare b a); simpl; congruence.
Qed.

Lemma string_ltb_irrefl (a : string) : String.ltb a a = false.
Proof.
  unfold String.ltb. rewrite string_compare_refl. reflexivity.
Qed.

(** [<=] on strings is transitive: negative transitivity of [<]. *)
Lemma string_ltb_neg_trans (x y z : string) :
  String.ltb y x = false -> String.ltb z y = false -> String.ltb z x = false.
Proof.
  unfold String.ltb. intros H1 H2.
  destruct (String.compare z x) eqn:ZX; try reflexivity.
  destruct (String.compare y x) eqn:YX; try discriminate.
  - apply String.compare_eq_iff in YX. subst. rewrite ZX in H2. discriminate.
  - assert (XY : String.compare x y = Lt).
    { rewrite String.compare_antisym, YX. reflexivity. }
    rewrite (string_compare_lt_trans _ _ _ ZX XY) in H2. discriminate.
Qed.

Lemma sort_key_lt_asym (a b : sort_key) : sort_key_lt a b = true -> sort_key_lt b a = false.
Proof.
  unfold sort_key_lt. destruct a as [m s], b as [n t]; simpl.
  intros H. apply orb_true_iff in H as [H|H].
  - apply Nat.ltb_lt in H.
    apply orb_false_iff; split.
    + apply Nat.ltb_ge; lia.
    + apply andb_false_iff; left. apply Nat.eqb_neq; lia.
  - apply andb_true_iff in H as [E L]. apply Nat.eqb_eq in E. subst.
    rewrite Nat.ltb_irrefl, Nat.eqb_refl. simpl. apply string_ltb_asym, L.
Qed.

Lemma sort_key_lt_neg_trans (x y z : sort_key) :
  sort_key_lt y x = false -> sort_key_lt z y = false -> sort_key_lt z x = false.
Proof.
  unfold sort_key_lt. destruct x as [a s], y as [b t], z as [c u]; simpl.
  intros H1 H2.
  apply orb_false_iff in H1 as [H1 H1'], H2 as [H2 H2'].
  apply Nat.ltb_ge in H1, H2.
  apply orb_false_iff; split; [apply Nat.ltb_ge; lia|].
  destruct (c =? a)%nat eqn:CA; [|reflexivity]. simpl.
  apply Nat.eqb_eq in CA. subst c.
  assert (b = a) by lia. subst b.
  rewrite Nat.eqb_refl in H1', H2'. simpl in H1', H2'.
  eapply string_ltb_neg_trans; eassumption.
Qed.

Lemma insert_by_key_perm {A} (x : sort_key * A) (l : list (sort_key * A)) :
  Permutation (x :: l) (insert_by_key x l).
Proof.
  induction l as [|y l IH]; simpl; [reflexivity|].
  destruct (sort_key_lt (fst y) (fst x)); [|reflexivity].
  rewrite perm_swap. constructor. exact IH.
Qed.

Lemma sort_by_key_perm {A} (l : list (sort_key * A)) : Permutation l (sort_by_key l).
Proof.
  induction l as [|x l IH]; simpl; [reflexivity|].
  rewrite <- insert_by_key_perm. constructor. exact IH.
Qed.

Lemma insert_by_key_sorted {A} (x : sort_key * A) (l : list (sort_key * A)) :
  StronglySorted keyed_le l -> StronglySorted keyed_le (insert_by_key x l).
Proof.
  induction 1 as [|y l Hs IH Hy]; simpl.
  - constructor; constructor.
  - destruct (sort_key_lt (fst y) (fst x)) eqn:L.
    + constructor; [exact IH|].
      rewrite <- insert_by_key_perm. constructor; [|exact Hy].
      unfold keyed_le. apply sort_key_lt_asym, L.
    + constructor; [constructor; assumption|].
      constructor; [exact L|].
      rewrite Forall_forall in *. intros z Hz. unfold keyed_le in *.
      eapply sort_key_lt_neg_trans; [exact L | apply Hy, Hz].
Qed.

Lemma sort_by_key_sorted {A} (l : list (sort_key * A)) :
  StronglySorted keyed_le (sort_by_key l).
Proof.
  induction l as [|x l IH]; simpl; [constructor | apply insert_by_key_sorted, IH].
Qed.

Lemma pb_sort_key_text (lower : string -> string) (c : catalog) :
  text_or_falsy (Name c) ->
  _pb_sort_key lower c = Ok (rank c, lower (name_or_empty c)).
Proof.
  unfold text_or_falsy, _pb_sort_key, name_or_empty, rank, py_or.
  destruct (Name c) as [|b|n|s|d]; simpl; intros H; try rewrite H; try reflexivity.
  destruct (negb (s =? EmptyString)); reflexivity.
Qed.

Lemma keyed_text (lower : string -> string) (cs : list catalog) :
  Forall (fun c => text_or_falsy (Name c)) cs ->
  keyed lower cs = Ok (map (fun c => ((rank c, lower (name_or_empty c)), c)) cs).
Proof.
  induction 1 as [|c cs Hc _ IH]; simpl; [reflexivity|].
  rewrite (pb_sort_key_text lower c Hc). simpl. rewrite IH. reflexivity.
Qed.

Lemma keyed_le_catalog_le (lower : string -> string) (a b : catalog) :
  keyed_le ((rank a, lower (name_or_empty a)), a) ((rank b, lower (name_or_empty b)), b) ->
  catalog_le lower a b.
Proof.
  unfold keyed_le, sort_key_lt, catalog_le; simpl. intros H.
  apply orb_false_iff in H as [H1 H2]. apply Nat.ltb_ge in H1.
  destruct (Nat.eq_dec (rank a) (rank b)) as [E|NE]; [right|left; lia].
  split; [exact E|]. rewrite E, Nat.eqb_refl in H2. simpl in H2.
  unfold String.ltb in H2. unfold String.leb.
  rewrite String.compare_antisym.
  destruct (String.compare (lower (name_or_empty b)) (lower (name_or_empty a)));
    simpl; congruence.
Qed.

Lemma sorted_map_snd (lower : string -> string) (l : list (sort_key * catalog)) :
  Forall (fun kc => fst kc = (rank (snd kc), lower (name_or_empty (snd kc)))) l ->
  StronglySorted keyed_le l ->
  StronglySorted (catalog_le lower) (map snd l).
Proof.
  intros Hk Hs. induction Hs as [|x l Hs IH Hx]; simpl; [constructor|].
  inversion Hk as [|? ? Hkx Hkl]; subst.
  constructor; [apply IH, Hkl|].
  rewrite Forall_forall in *. intros c Hc.
  apply in_map_iff in Hc as (y & <- & Hy).
  apply keyed_le_catalog_le.
  specialize (Hx y Hy). specialize (Hkl y Hy).
  destruct x as [kx cx], y as [ky cy]; simpl in *. subst. exact Hx.
Qed.

(** ** Dictionaries *)

#[local] Arguments String.eqb : simpl never.

Lemma lookup_dict_set {V} (k k' : string) (v : V) (d : list (string * V)) :
  lookup k (dict_set k' v d) = if k' =? k then Some v else lookup k d.
Proof.
  induction d as [|[k0 v0] d IH]; simpl.
  - reflexivity.
  - destruct (k0 =? k') eqn:E0; simpl.
    + apply String.eqb_eq in E0. subst k0.
      destruct (k' =? k); reflexivity.
    + destruct (k0 =? k) eqn:E1.
      * apply String.eqb_eq in E1. subst k0.
        rewrite String.eqb_sym, E0. reflexivity.
      * exact IH.
Qed.


Lemma get_dict_set (k k' : string) (v : value) (d : dict) :
  get (dict_set k' v d) k = if k' =? k then v else get d k.
Proof.
  unfold get. rewrite lookup_dict_set. destruct (k' =? k); reflexivity.
Qed.

Lemma has_key_in {V} (k : string) (d : list (string * V)) :
  has_key k d = true <-> In k (map fst d).
Proof.
  unfold has_key. induction d as [|[k0 v0] d IH]; simpl.
  - split; [discriminate | contradiction].
  - destruct (k0 =? k) eqn:E.
    + apply String.eqb_eq in E. split; [intros _; left; exact E | reflexivity].
    + apply String.eqb_neq in E. rewrite IH. split; [right; assumption|].
      intros [H|H]; [contradiction | exact H].
Qed.

(** ** The catalog index *)

Lemma key_eqb_eq (a b : key) : key_eqb a b = true <-> a = b.
Proof.
  destruct a, b; simpl; split; intros H; try discriminate; try reflexivity.
  - apply Z.eqb_eq in H. congruence.
  - injection H as ->. apply Z.eqb_refl.
  - apply String.eqb_eq in H. congruence.
  - injection H as ->. apply String.eqb_refl.
Qed.

Lemma key_eqb_refl (a : key) : key_eqb a a = true.
Proof. apply key_eqb_eq. reflexivity. Qed.

Lemma key_eqb_neq (a b : key) : key_eqb a b = false <-> a <> b.
Proof.
  rewrite <- key_eqb_eq. destruct (key_eqb a b); split; congruence.
Qed.

Lemma key_eqb_sym (a b : key) : key_eqb a b = key_eqb b a.
Proof.
  destruct (key_eqb b a) eqn:E.
  - apply key_eqb_eq in E. subst. apply key_eqb_refl.
  - apply key_eqb_neq in E. apply key_eqb_neq. congruence.
Qed.

Lemma pb_mem_in (k : key) (m : pricebooks_map) : pb_mem k m = true <-> In k (map fst m).
Proof.
  unfold pb_mem. induction m as [|[k0 c0] m IH]; simpl.
  - split; [discriminate | contradiction].
  - destruct (key_eqb k0 k) eqn:E.
    + apply key_eqb_eq in E. split; [intros _; left; exact E | reflexivity].
    + apply key_eqb_neq in E. rewrite IH. split; [right; assumption|].
      intros [H|H]; [contradiction | exact H].
Qed.

Lemma pb_lookup_set (k k' : key) (c : catalog) (m : pricebooks_map) :
  pb_lookup k (pb_set k' c m) = if key_eqb k' k then Some c else pb_lookup k m.
Proof.
  induction m as [|[k0 c0] m IH]; simpl.
  - reflexivity.
  - destruct (key_eqb k0 k') eqn:E0; simpl.
    + apply key_eqb_eq in E0. subst k0. destruct (key_eqb k' k); reflexivity.
    + destruct (key_eqb k0 k) eqn:E1.
      * apply key_eqb_eq in E1. rewrite E1 in E0.
        rewrite key_eqb_sym, E0. reflexivity.
      * exact IH.
Qed.

Lemma pb_set_keys (k : key) (c : catalog) (m : pricebooks_map) :
  map fst (pb_set k c m) = if pb_mem k m then map fst m else (map fst m ++ [k])%list.
Proof.
  unfold pb_mem. induction m as [|[k0 c0] m IH]; simpl.
  - reflexivity.
  - destruct (key_eqb k0 k) eqn:E; simpl.
    + reflexivity.
    + rewrite IH. destruct (pb_lookup k m); reflexivity.
Qed.

Lemma pb_append_index_add (k : key) (c0 : catalog) (entry : dict) (m : pricebooks_map) :
  pb_append k entry (if pb_mem k m then m else pb_set k c0 m) =
  Ok (index_add k c0 entry m).
Proof.
  unfold pb_mem. induction m as [|[k0 c] m IH]; simpl.
  - rewrite key_eqb_refl. reflexivity.
  - destruct (key_eqb k0 k) eqn:E; simpl.
    + rewrite E. reflexivity.
    + destruct (pb_lookup k m) eqn:L; simpl; rewrite E.
      * rewrite IH. reflexivity.
      * rewrite IH. reflexivity.
Qed.

Lemma index_add_lookup (k k' : key) (c0 : catalog) (entry : dict) (m : pricebooks_map) :
  pb_lookup k (index_add k' c0 entry m) =
  if key_eqb k' k
  then Some (append_entry entry (match pb_lookup k' m with Some c => c | None => c0 end))
  else pb_lookup k m.
Proof.
  induction m as [|[k0 c] m IH]; simpl.
  - destruct (key_eqb k' k); reflexivity.
  - destruct (key_eqb k0 k') eqn:E0; simpl.
    + apply key_eqb_eq in E0. subst k0. destruct (key_eqb k' k); reflexivity.
    + destruct (key_eqb k0 k) eqn:E1.
      * apply key_eqb_eq in E1. rewrite E1 in E0.
        rewrite key_eqb_sym, E0. reflexivity.
      * exact IH.
Qed.

Lemma index_add_entries (k k' : key) (c0 : catalog) (entry : dict) (m : pricebooks_map) :
  Entries c0 = [] ->
  entries_of k (index_add k' c0 entry m) =
  if key_eqb k' k then (entries_of k m ++ [entry])%list else entries_of k m.
Proof.
  intros H0. unfold entries_of. rewrite index_add_lookup.
  destruct (key_eqb k' k) eqn:E; [|reflexivity].
  apply key_eqb_eq in E. subst k'.
  destruct (pb_lookup k m); simpl; [reflexivity | rewrite H0; reflexivity].
Qed.

Lemma index_add_keys (k : key) (c0 : catalog) (entry : dict) (m : pricebooks_map) :
  map fst (index_add k c0 entry m) =
  if pb_mem k m then map fst m else (map fst m ++ [k])%list.
Proof.
  unfold pb_mem. induction m as [|[k0 c] m IH]; simpl.
  - reflexivity.
  - destruct (key_eqb k0 k) eqn:E; simpl.
    + reflexivity.
    + rewrite IH. destruct (pb_lookup k m); reflexivity.
Qed.

Lemma nodup_snoc {A} (l : list A) (x : A) : NoDup l -> ~ In x l -> NoDup (l ++ [x]).
Proof.
  intros H Hx. apply NoDup_app; [exact H | repeat constructor; intros [] | ].
  intros a Ha [<-|[]]. contradiction.
Qed.

Lemma index_add_nodup (k : key) (c0 : catalog) (entry : dict) (m : pricebooks_map) :
  NoDup (map fst m) -> NoDup (map fst (index_add k c0 entry m)).
Proof.
  intros H. rewrite index_add_keys.
  destruct (pb_mem k m) eqn:E; [exact H|].
  apply nodup_snoc; [exact H|]. rewrite <- pb_mem_in, E. discriminate.
Qed.

Lemma pb_set_nodup (k : key) (c : catalog) (m : pricebooks_map) :
  NoDup (map fst m) -> NoDup (map fst (pb_set k c m)).
Proof.
  intros H. rewrite pb_set_keys.
  destruct (pb_mem k m) eqn:E; [exact H|].
  apply nodup_snoc; [exact H|]. rewrite <- pb_mem_in, E. discriminate.
Qed.

(** ** The nested entry and the flat row of one record *)

Lemma mem_string_in (k : string) (l : list string) : mem_string k l = true <-> In k l.
Proof.
  unfold mem_string. rewrite existsb_exists. split.
  - intros (x & Hx & E). apply String.eqb_eq in E. subst. exact Hx.
  - intros H. exists k. split; [exact H | apply String.eqb_refl].
Qed.

Lemma mem_string_not_in (k : string) (l : list string) : mem_string k l = false <-> ~ In k l.
Proof.
  rewrite <- mem_string_in. destruct (mem_string k l); split; congruence.
Qed.

Lemma getitem_has_key (d : dict) (k : string) :
  has_key k d = true -> getitem d k = Ok (get d k).
Proof.
  unfold has_key, getitem, get. destruct (lookup k d); [reflexivity | discriminate].
Qed.

Section EntryRow.
Variable include_currency : bool.
Variable include_product2 : bool.
Variable pbe_custom_fields : list string.
Variable product2_custom_fields : list string.

Lemma set_entry_customs_lookup (r : dict) (fcfs : list string) (e : dict) (k : string) :
  lookup k (set_entry_customs r fcfs e) =
  if mem_string k fcfs then Some (get r k) else lookup k e.
Proof.
  unfold set_entry_customs. revert e.
  induction fcfs as [|f fcfs IH]; intros e; simpl; [reflexivity|].
  rewrite IH, lookup_dict_set. rewrite (String.eqb_sym k f).
  destruct (mem_string k fcfs) eqn:M; [rewrite orb_true_r; reflexivity|].
  rewrite orb_false_r. destruct (f =? k) eqn:E; [|reflexivity].
  apply String.eqb_eq in E. subst. reflexivity.
Qed.

Lemma set_product_customs_ok (r : dict) (fcfs : list string) (e p : dict) :
  lookup "Product" e = Some (VDict p) ->
  exists e', set_product_customs r fcfs e = Ok e' /\
             forall k, lookup k e' =
                       if "Product" =? k then Some (VDict (product_customs r fcfs p))
                       else lookup k e.
Proof.
  revert e p. induction fcfs as [|f fcfs IH]; intros e p Hp; simpl.
  - exists e. split; [reflexivity|]. intros k.
    destruct ("Product" =? k) eqn:E; [|reflexivity].
    apply String.eqb_eq in E. subst. exact Hp.
  - unfold getitem. rewrite Hp. simpl.
    destruct (IH (dict_set "Product" (VDict (dict_set f (safe_rel r "Product2" f VNone) p)) e)
                 (dict_set f (safe_rel r "Product2" f VNone) p)) as (e' & He' & Hl).
    { rewrite lookup_dict_set, String.eqb_refl. reflexivity. }
    exists e'. split; [exact He'|]. intros k. rewrite Hl, lookup_dict_set.
    destruct ("Product" =? k); reflexivity.
Qed.

Lemma product_customs_lookup (r : dict) (fcfs : list string) (p : dict) (k : string) :
  lookup k (product_customs r fcfs p) =
  if mem_string k fcfs then Some (safe_rel r "Product2" k VNone) else lookup k p.
Proof.
  unfold product_customs. revert p.
  induction fcfs as [|f fcfs IH]; intros p; simpl; [reflexivity|].
  rewrite IH, lookup_dict_set. rewrite (String.eqb_sym k f).
  destruct (mem_string k fcfs) eqn:M; [rewrite orb_true_r; reflexivity|].
  rewrite orb_false_r. destruct (f =? k) eqn:E; [|reflexivity].
  apply String.eqb_eq in E. subst. reflexivity.
Qed.

Lemma entry_top_product (r : dict) :
  ~ In "Product" pbe_custom_fields ->
  lookup "Product" (entry_top include_currency pbe_custom_fields r) = Some (VDict (product_literal r)).
Proof.
  intros H. unfold entry_top. rewrite set_entry_customs_lookup.
  rewrite (proj2 (mem_string_not_in _ _) H).
  destruct include_currency; [rewrite lookup_dict_set|]; reflexivity.
Qed.

(** With no custom field called "Product", building the entry succeeds;
    its attributes other than the product are those of [entry_top], and
    its product is [product_final]. *)
Lemma build_entry_ok (r : dict) :
  ~ In "Product" pbe_custom_fields ->
  exists e, build_entry include_currency include_product2 pbe_custom_fields
              product2_custom_fields r = Ok e /\
            forall k, lookup k e =
                      if "Product" =? k then Some (VDict (product_final include_product2 product2_custom_fields r))
                      else lookup k (entry_top include_currency pbe_custom_fields r).
Proof.
  intros H. unfold build_entry. fold (entry_top include_currency pbe_custom_fields r). unfold product_final.
  destruct include_product2.
  - apply set_product_customs_ok, entry_top_product, H.
  - exists (entry_top include_currency pbe_custom_fields r). split; [reflexivity|]. intros k.
    destruct ("Product" =? k) eqn:E; [|reflexivity].
    apply String.eqb_eq in E. subst. apply entry_top_product, H.
Qed.

Lemma entry_top_has_key (r : dict) (k : string) :
  has_key k (entry_top include_currency pbe_custom_fields r) =
  mem_string k pbe_custom_fields
  || (include_currency && ("CurrencyIsoCode" =? k))
  || has_key k (entry_literal r).
Proof.
  unfold has_key, entry_top. rewrite set_entry_customs_lookup.
  destruct (mem_string k pbe_custom_fields); [reflexivity|].
  destruct include_currency; [|reflexivity].
  rewrite lookup_dict_set.
  destruct ("CurrencyIsoCode" =? k); reflexivity.
Qed.

Lemma product_final_has_key (r : dict) (k : string) :
  has_key k (product_final include_product2 product2_custom_fields r) =
  (include_product2 && mem_string k product2_custom_fields)
  || mem_string k product_core_keys.
Proof.
  unfold has_key, product_final. destruct include_product2; simpl.
  - rewrite product_customs_lookup.
    destruct (mem_string k product2_custom_fields); [reflexivity|]. simpl.
    unfold product_literal, product_of, entry_literal, mem_string; simpl.
    rewrite !(String.eqb_sym k).
    repeat match goal with
           | |- context [?s =? k] => destruct (s =? k); [reflexivity|]
           end; reflexivity.
  - unfold product_literal, product_of, entry_literal, mem_string; simpl.
    rewrite !(String.eqb_sym k).
    repeat match goal with
           | |- context [?s =? k] => destruct (s =? k); [reflexivity|]
           end; reflexivity.
Qed.

Lemma built_entry_shaped (r e : dict) :
  (forall k, lookup k e =
             if "Product" =? k then Some (VDict (product_final include_product2 product2_custom_fields r))
             else lookup k (entry_top include_currency pbe_custom_fields r)) ->
  entry_shaped e.
Proof.
  intros Hl. split.
  - unfold entry_core_keys. repeat constructor;
      unfold has_key; rewrite Hl; simpl;
      change (match lookup ?k (entry_top include_currency pbe_custom_fields r) with Some _ => true | None => false end)
        with (has_key k (entry_top include_currency pbe_custom_fields r));
      rewrite entry_top_has_key; simpl; apply orb_true_r.
  - exists (product_final include_product2 product2_custom_fields r). split.
    + rewrite Hl. reflexivity.
    + unfold product_core_keys. repeat constructor;
        rewrite product_final_has_key; simpl; apply orb_true_r.
Qed.
End EntryRow.

(** *** The flat row *)

Section Row.
Variable include_currency : bool.
Variable include_product2 : bool.
Variable pbe_custom_fields : list string.
Variable product2_custom_fields : list string.

Lemma entry_product_item_ok (e p : dict) (k : string) :
  lookup "Product" e = Some (VDict p) -> has_key k p = true ->
  entry_product_item e k = Ok (get p k).
Proof.
  intros Hp Hk. unfold entry_product_item, getitem. rewrite Hp. simpl.
  fold (getitem p k). apply getitem_has_key, Hk.
Qed.

Lemma set_row_product_customs_ok (e p : dict) (fcfs : list string) (row : dict) :
  lookup "Product" e = Some (VDict p) ->
  set_row_product_customs e fcfs row =
  Ok (fold_left (fun w fcf => dict_set (product_col fcf) (get p fcf) w) fcfs row).
Proof.
  intros Hp. revert row. induction fcfs as [|f fcfs IH]; intros row; simpl.
  - reflexivity.
  - unfold getitem. rewrite Hp. simpl. apply IH.
Qed.

Lemma product_of_lookup (e p : dict) :
  lookup "Product" e = Some (VDict p) -> product_of e = p.
Proof. intros H. unfold product_of, get. rewrite H. reflexivity. Qed.

(** Building the row of a well-formed entry succeeds. *)
Lemma build_row_ok (pb_id pb_name : value) (e : dict) :
  entry_shaped e ->
  build_row include_currency include_product2 pbe_custom_fields product2_custom_fields
    pb_id pb_name e = Ok (row_of include_currency include_product2 pbe_custom_fields product2_custom_fields pb_id pb_name e).
Proof.
  intros [He (p & Hp & Hpk)].
  unfold build_row, row_literal, row_of, row_core.
  rewrite (product_of_lookup e p Hp).
  unfold entry_core_keys in He. unfold product_core_keys in Hpk.
  repeat match goal with
         | H : Forall _ (_ :: _) |- _ => inversion H; subst; clear H
         end.
  repeat match goal with
         | H : has_key ?k e = true |- _ =>
             rewrite (getitem_has_key e k H); clear H
         end.
  repeat match goal with
         | H : has_key ?k p = true |- _ =>
             rewrite (entry_product_item_ok e p k Hp H); clear H
         end.
  cbn [bind].
  destruct include_product2; [|reflexivity].
  apply set_row_product_customs_ok, Hp.
Qed.




End Row.







(** ** The streaming pass *)

Lemma hash_key_hashable (v : value) : hashable v -> hash_key v = Ok (key_of v).
Proof. destruct v; simpl; intros H; try reflexivity. destruct H. Qed.

Lemma hash_key_ok (v : value) (k : key) : hash_key v = Ok k -> hashable v /\ key_of v = k.
Proof.
  unfold key_of. destruct v; simpl; intros H; try discriminate;
    injection H as <-; split; constructor.
Qed.

Lemma hash_key_unhashable (v : value) : ~ hashable v -> hash_key v = Raise TypeError.
Proof. destruct v; simpl; intros H; try reflexivity; exfalso; apply H; exact I. Qed.

Section PassProperties.
Variable include_currency : bool.
Variable include_product2 : bool.
Variable pbe_custom_fields : list string.
Variable product2_custom_fields : list string.
Hypothesis no_product : ~ In "Product" pbe_custom_fields.

Lemma nested_entry_built (r : dict) :
  build_entry include_currency include_product2 pbe_custom_fields
    product2_custom_fields r = Ok (nested_entry include_currency include_product2 pbe_custom_fields product2_custom_fields r) /\
  (forall k, lookup k (nested_entry include_currency include_product2 pbe_custom_fields product2_custom_fields r) =
             if "Product" =? k
             then Some (VDict (product_final include_product2 product2_custom_fields r))
             else lookup k (entry_top include_currency pbe_custom_fields r)).
Proof.
  destruct (build_entry_ok include_currency include_product2 pbe_custom_fields
              product2_custom_fields r no_product) as (e & He & Hl).
  unfold nested_entry. rewrite He. split; [reflexivity | exact Hl].
Qed.

Lemma nested_entry_shaped (r : dict) : entry_shaped (nested_entry include_currency include_product2 pbe_custom_fields product2_custom_fields r).
Proof.
  eapply built_entry_shaped. apply nested_entry_built.
Qed.

Lemma process_record_hashable (m : pricebooks_map) (r : dict) :
  hashable (resolve_pb_id r) ->
  process_record include_currency include_product2 pbe_custom_fields
    product2_custom_fields m r = Ok (index_step include_currency include_product2 pbe_custom_fields product2_custom_fields m r, flat_row include_currency include_product2 pbe_custom_fields product2_custom_fields r).
Proof.
  intros H. unfold process_record.
  rewrite (hash_key_hashable _ H). cbn [bind].
  rewrite (proj1 (nested_entry_built r)). cbn [bind].
  rewrite pb_append_index_add. cbn [bind].
  rewrite (build_row_ok _ _ _ _ _ _ _ (nested_entry_shaped r)). reflexivity.
Qed.

Lemma process_record_unhashable (m : pricebooks_map) (r : dict) :
  ~ hashable (resolve_pb_id r) ->
  process_record include_currency include_product2 pbe_custom_fields
    product2_custom_fields m r = Raise TypeError.
Proof.
  intros H. unfold process_record. rewrite (hash_key_unhashable _ H). reflexivity.
Qed.

Lemma hashable_dec (v : value) : {hashable v} + {~ hashable v}.
Proof. destruct v; simpl; auto. Qed.

(** The loop over records that can all be filed runs to the end. *)
Lemma stream_loop_complete (rs : list dict) (m : pricebooks_map) (rows : list dict) (n : nat) :
  Forall (fun r => hashable (resolve_pb_id r)) rs ->
  stream_loop include_currency include_product2 pbe_custom_fields
    product2_custom_fields rs m rows n =
  ((rows ++ map (flat_row include_currency include_product2 pbe_custom_fields product2_custom_fields) rs)%list, Ok (index_after include_currency include_product2 pbe_custom_fields product2_custom_fields rs m, n + List.length rs)).
Proof.
  intros H. revert m rows n.
  induction H as [|r rs Hr _ IH]; intros m rows n; simpl.
  - rewrite app_nil_r, Nat.add_0_r. reflexivity.
  - rewrite (process_record_hashable m r Hr). rewrite IH.
    rewrite <- app_assoc. simpl. rewrite Nat.add_succ_r. reflexivity.
Qed.

(** When the loop runs to the end, every record could be filed. *)
Lemma stream_loop_ok_inv (rs : list dict) (m : pricebooks_map) (rows : list dict) (n : nat)
    (rows' : list dict) (out : pricebooks_map * nat) :
  stream_loop include_currency include_product2 pbe_custom_fields
    product2_custom_fields rs m rows n = (rows', Ok out) ->
  Forall (fun r => hashable (resolve_pb_id r)) rs.
Proof.
  revert m rows n. induction rs as [|r rs IH]; intros m rows n H; simpl in H.
  - constructor.
  - destruct (hashable_dec (resolve_pb_id r)) as [Hr|Hr].
    + rewrite (process_record_hashable m r Hr) in H.
      constructor; [exact Hr | eapply IH, H].
    + rewrite (process_record_unhashable m r Hr) in H. discriminate.
Qed.

(** The rows written before the loop stops are the rows of a prefix of
    the records. *)
Lemma stream_loop_rows (rs : list dict) (m : pricebooks_map) (rows : list dict) (n : nat) :
  exists pre post,
    rs = (pre ++ post)%list /\
    fst (stream_loop include_currency include_product2 pbe_custom_fields
           product2_custom_fields rs m rows n) = (rows ++ map (flat_row include_currency include_product2 pbe_custom_fields product2_custom_fields) pre)%list.
Proof.
  revert m rows n. induction rs as [|r rs IH]; intros m rows n; simpl.
  - exists [], []. split; [reflexivity|]. simpl. rewrite app_nil_r. reflexivity.
  - destruct (hashable_dec (resolve_pb_id r)) as [Hr|Hr].
    + rewrite (process_record_hashable m r Hr).
      destruct (IH (index_step include_currency include_product2 pbe_custom_fields product2_custom_fields m r) (rows ++ [flat_row include_currency include_product2 pbe_custom_fields product2_custom_fields r])%list (S n))
        as (pre & post & -> & E).
      exists (r :: pre), post. split; [reflexivity|].
      rewrite E, <- app_assoc. reflexivity.
    + rewrite (process_record_unhashable m r Hr).
      exists [], (r :: rs). split; [reflexivity|]. simpl. rewrite app_nil_r. reflexivity.
Qed.

(** *** The index after the pass *)

Lemma index_after_entries (rs : list dict) (m : pricebooks_map) (k : key) :
  entries_of k (index_after include_currency include_product2 pbe_custom_fields product2_custom_fields rs m) =
  (entries_of k m ++
   map (nested_entry include_currency include_product2 pbe_custom_fields product2_custom_fields) (filter (fun r => key_eqb (record_key r) k) rs))%list.
Proof.
  unfold index_after. revert m. induction rs as [|r rs IH]; intros m; simpl.
  - rewrite app_nil_r. reflexivity.
  - rewrite IH. unfold index_step.
    rewrite index_add_entries by reflexivity.
    destruct (key_eqb (record_key r) k); [|reflexivity].
    rewrite <- app_assoc. reflexivity.
Qed.

Lemma index_after_nodup (rs : list dict) (m : pricebooks_map) :
  NoDup (map fst m) -> NoDup (map fst (index_after include_currency include_product2 pbe_custom_fields product2_custom_fields rs m)).
Proof.
  unfold index_after. revert m. induction rs as [|r rs IH]; intros m H; simpl.
  - exact H.
  - apply IH, index_add_nodup, H.
Qed.

Lemma index_after_keys (rs : list dict) (m : pricebooks_map) (k : key) :
  In k (map fst (index_after include_currency include_product2 pbe_custom_fields product2_custom_fields rs m)) <->
  In k (map fst m) \/ In k (map record_key rs).
Proof.
  unfold index_after. revert m. induction rs as [|r rs IH]; intros m; simpl.
  - tauto.
  - rewrite IH. unfold index_step. rewrite index_add_keys.
    destruct (pb_mem (record_key r) m) eqn:E.
    + apply pb_mem_in in E. split; [tauto|].
      intros [H|[<-|H]]; tauto.
    + rewrite in_app_iff. simpl. tauto.
Qed.
End PassProperties.

(** ** Preloading *)

Lemma pb_set_forall (P : key * catalog -> Prop) (k : key) (c : catalog) (m : pricebooks_map) :
  (forall k', P (k', c)) -> Forall P m -> Forall P (pb_set k c m).
Proof.
  intros Hc H. induction H as [|[k0 c0] m H0 Hm IH]; simpl.
  - repeat constructor. apply Hc.
  - destruct (key_eqb k0 k); constructor; auto.
Qed.

Lemma pb_set_key_forall (k : key) (c : catalog) (m : pricebooks_map) :
  hash_key (Id c) = Ok k ->
  Forall (fun kc => hash_key (Id (snd kc)) = Ok (fst kc)) m ->
  Forall (fun kc => hash_key (Id (snd kc)) = Ok (fst kc)) (pb_set k c m).
Proof.
  intros Hc H. induction H as [|[k0 c0] m H0 Hm IH]; simpl.
  - repeat constructor. exact Hc.
  - destruct (key_eqb k0 k) eqn:E; constructor; auto.
    apply key_eqb_eq in E. subst. exact Hc.
Qed.

Lemma preload_step_ok (pb : dict) (m m' : pricebooks_map) :
  preload_step pb m = Ok m' ->
  exists id k c,
    lookup "Id" pb = Some id /\ hash_key id = Ok k /\ Id c = id /\ Entries c = [] /\
    m' = pb_set k c m.
Proof.
  unfold preload_step, getitem. destruct (lookup "Id" pb) as [id|]; [|discriminate].
  cbn [bind]. destruct (hash_key id) as [k|] eqn:Hk; [|discriminate]. cbn [bind].
  intros H. injection H as <-.
  eexists id, k, _. repeat split; try reflexivity. exact Hk.
Qed.

Lemma preload_loop_props (pbs : list dict) (m m' : pricebooks_map) :
  preload_loop pbs m = Ok m' ->
  index_wf m -> all_empty m ->
  index_wf m' /\ all_empty m' /\
  (forall k, In k (map fst m') <->
             In k (map fst m) \/ exists pb, In pb pbs /\ hash_key (get pb "Id") = Ok k).
Proof.
  revert m. induction pbs as [|pb pbs IH]; intros m H Hwf He; simpl in H.
  - injection H as <-. split; [exact Hwf|]. split; [exact He|].
    intros k. split; [intros Hk; left; exact Hk|].
    intros [Hk|(pb & [] & _)]. exact Hk.
  - destruct (preload_step pb m) as [m1|] eqn:S1; [|discriminate]. cbn [bind] in H.
    destruct (preload_step_ok _ _ _ S1) as (id & k & c & Hid & Hk & Hc & Hce & ->).
    destruct Hwf as [Hnd Hkeys].
    destruct (IH _ H) as (Hwf' & He' & Hin).
    + split; [apply pb_set_nodup, Hnd|].
      apply pb_set_key_forall; [rewrite Hc; exact Hk | exact Hkeys].
    + apply pb_set_forall; [intros; exact Hce | exact He].
    + split; [exact Hwf'|]. split; [exact He'|]. intros k'. split.
      * intros Hk'. apply Hin in Hk' as [Hk'|(pb' & Hpb' & Hh)].
        -- rewrite pb_set_keys in Hk'. destruct (pb_mem k m).
           ++ left; exact Hk'.
           ++ apply in_app_or in Hk' as [Hk'|[<-|[]]]; [left; exact Hk'|].
              right. exists pb. split; [left; reflexivity|].
              unfold get. rewrite Hid. exact Hk.
        -- right. exists pb'. split; [right; exact Hpb' | exact Hh].
      * intros [Hk'|(pb' & [<-|Hpb'] & Hh)]; apply Hin.
        -- left. rewrite pb_set_keys. destruct (pb_mem k m); [exact Hk'|].
           apply in_or_app; left; exact Hk'.
        -- left. unfold get in Hh. rewrite Hid, Hk in Hh. injection Hh as <-.
           rewrite pb_set_keys. destruct (pb_mem k m) eqn:E.
           ++ apply pb_mem_in, E.
           ++ apply in_or_app; right; left; reflexivity.
        -- right. exists pb'. split; assumption.
Qed.

Lemma preload_props (s : stream) (m : pricebooks_map) :
  preload s = Ok m ->
  fault s = None /\ index_wf m /\ all_empty m /\
  (forall k, In k (map fst m) <->
             exists pb, In pb (yielded s) /\ hash_key (get pb "Id") = Ok k).
Proof.
  unfold preload. destruct (preload_loop (yielded s) []) as [m0|] eqn:L; [|discriminate].
  cbn [bind]. destruct (fault s); [discriminate|]. intros H. injection H as <-.
  destruct (preload_loop_props _ _ _ L) as (Hwf & He & Hin).
  - split; constructor.
  - constructor.
  - split; [reflexivity|]. split; [exact Hwf|]. split; [exact He|].
    intros k. split.
    + intros Hk. apply Hin in Hk as [[]|Hk]. exact Hk.
    + intros Hk. apply Hin. right. exact Hk.
Qed.

(** ** The index invariants along the pass *)

Lemma index_add_key_forall (k : key) (c0 : catalog) (e : dict) (m : pricebooks_map) :
  hash_key (Id c0) = Ok k ->
  Forall (fun kc => hash_key (Id (snd kc)) = Ok (fst kc)) m ->
  Forall (fun kc => hash_key (Id (snd kc)) = Ok (fst kc)) (index_add k c0 e m).
Proof.
  intros Hc H. induction H as [|[k0 c] m H0 Hm IH]; simpl.
  - repeat constructor. exact Hc.
  - destruct (key_eqb k0 k); constructor; auto.
Qed.

Lemma index_after_wf (include_currency include_product2 : bool)
    (pbe_custom_fields product2_custom_fields : list string)
    (rs : list dict) (m : pricebooks_map) :
  Forall (fun r => hashable (resolve_pb_id r)) rs ->
  index_wf m ->
  index_wf (index_after include_currency include_product2 pbe_custom_fields
              product2_custom_fields rs m).
Proof.
  intros H. revert m. unfold index_after.
  induction H as [|r rs Hr _ IH]; intros m Hwf; simpl; [exact Hwf|].
  apply IH. destruct Hwf as [Hnd Hk]. split.
  - apply index_add_nodup, Hnd.
  - apply index_add_key_forall; [|exact Hk].
    simpl. apply hash_key_hashable, Hr.
Qed.

(** ** Counting entries *)






(** ** Discovered names carry the custom suffix *)

Lemma discover_loop_suffix (fs : list dict) (acc l : list string) :
  discover_loop fs acc = Ok l ->
  Forall (fun s => endswith s custom_suffix = true) acc ->
  Forall (fun s => endswith s custom_suffix = true) l.
Proof.
  revert acc. induction fs as [|f fs IH]; intros acc H Hacc; simpl in H.
  - injection H as <-. exact Hacc.
  - destruct (discover_step f acc) as [acc'|] eqn:S1; [|discriminate]. cbn [bind] in H.
    apply (IH _ H). unfold discover_step in S1.
    destruct (negb (truthy (get f "name"))); [injection S1 as <-; exact Hacc|].
    destruct (get f "name") as [|?|?|s|?]; try discriminate.
    destruct (endswith s custom_suffix) eqn:E; simpl in S1;
      [|injection S1 as <-; exact Hacc].
    destruct (truthy (get f "deprecatedAndHidden")); [injection S1 as <-; exact Hacc|].
    destruct (has_key "queryable" f && negb (truthy (get f "queryable")));
      injection S1 as <-; [exact Hacc|].
    apply Forall_app. split; [exact Hacc | repeat constructor; exact E].
Qed.

Lemma discover_custom_fields_suffix (sf : salesforce) (name : string) (l : list string) :
  discover_custom_fields sf name = Ok l ->
  Forall (fun s => endswith s custom_suffix = true) l.
Proof.
  unfold discover_custom_fields. destruct (describe sf name); [|discriminate].
  cbn [bind]. intros H. apply (discover_loop_suffix _ _ _ H). constructor.
Qed.

Lemma suffix_not_in (l : list string) (k : string) :
  Forall (fun s => endswith s custom_suffix = true) l ->
  endswith k custom_suffix = false -> ~ In k l.
Proof.
  intros H Hk Hin. rewrite Forall_forall in H. rewrite (H _ Hin) in Hk. discriminate.
Qed.

(** ** A completed run *)

Section MainProperties.
Variable py_str : value -> string.
Variable lower : string -> string.
Variable json_dumps : document -> string.

Lemma login_salesforce_ok (cfg : config) (rem : remote) (sf : salesforce) :
  login_salesforce cfg rem = Ok sf -> sf = service rem.
Proof.
  unfold login_salesforce. destruct (require_env cfg); [|discriminate]. cbn [bind].
  destruct (login_outcome rem) as [e|]; [destruct e; discriminate|].
  intros H. injection H as <-. reflexivity.
Qed.

Lemma main_ok_inv (cfg : config) (rem : remote) (files files' : fs) (rep : report) :
  main py_str lower json_dumps cfg rem files = (files', Ok rep) ->
  exists pbe p2 cur m0 m1 pbs,
    discover_custom_fields (service rem) "PricebookEntry" = Ok pbe /\
    (if INCLUDE_PRODUCT2_CUSTOM_FIELDS cfg
     then discover_custom_fields (service rem) "Product2" else Ok []) = Ok p2 /\
    detect_multi_currency (service rem) = Ok cur /\
    preload (catalog_listing rem) = Ok m0 /\
    stream_pass cur (INCLUDE_PRODUCT2_CUSTOM_FIELDS cfg) pbe p2
      (entry_stream cfg rem cur pbe p2) m0 =
      (flat_rows rep, Ok (m1, total_entry_rows rep)) /\
    flat_header rep = header_cols cur (INCLUDE_PRODUCT2_CUSTOM_FIELDS cfg) pbe p2 /\
    sorted_pricebooks lower m1 = Ok pbs /\
    exported rep = build_document (clock rem) cur pbe p2 pbs /\
    lookup (OUTPUT_JSON_NAME cfg) files' = Some (json_dumps (exported rep)).
Proof.
  unfold main. intros H.
  destruct (login_salesforce cfg rem) as [sf|] eqn:L; [|discriminate].
  apply login_salesforce_ok in L. subst sf.
  destruct (discover_custom_fields (service rem) "PricebookEntry") as [pbe|] eqn:D1;
    [|discriminate].
  destruct (if INCLUDE_PRODUCT2_CUSTOM_FIELDS cfg
            then discover_custom_fields (service rem) "Product2" else Ok [])
    as [p2|] eqn:D2; [|discriminate].
  destruct (detect_multi_currency (service rem)) as [cur|] eqn:P; [|discriminate].
  destruct (preload (query_all_iter (service rem) build_all_pricebooks_soql))
    as [m0|] eqn:PL; [|discriminate].
  destruct (stream_pass cur (INCLUDE_PRODUCT2_CUSTOM_FIELDS cfg) pbe p2
              (query_all_iter (service rem)
                 (build_flat_pbe_soql cur pbe p2 (PRICEBOOK2_ID cfg))) m0)
    as [rows [[m1 total]|]] eqn:SP; [|discriminate].
  match type of H with
  | match read_file ?p ?f with _ => _ end = _ =>
      destruct (read_file p f) as [text|]; [|discriminate]
  end.
  destruct (csv.reader read_dialect text) as [read_rows [e|]]; [discriminate|].
  match type of H with
  | match read_file ?p ?f with _ => _ end = _ =>
      destruct (read_file p f) as [text2|]; [|discriminate]
  end.
  destruct (csv.reader read_dialect text2) as [verified [e|]]; [discriminate|].
  destruct (sorted_pricebooks lower m1) as [pbs|] eqn:SO; [|discriminate].
  injection H as <- <-.
  exists pbe, p2, cur, m0, m1, pbs. cbn [flat_rows total_entry_rows flat_header exported].
  repeat (split; [first [assumption | reflexivity]|]).
  unfold write_file. rewrite lookup_dict_set, String.eqb_refl. reflexivity.
Qed.

(** The pass of a completed run went through the whole stream. *)
Lemma stream_pass_ok_inv (cur inc : bool) (pbe p2 : list string) (s : stream)
    (m0 m1 : pricebooks_map) (rows : list dict) (n : nat) :
  ~ In "Product" pbe ->
  stream_pass cur inc pbe p2 s m0 = (rows, Ok (m1, n)) ->
  fault s = None /\
  Forall (fun r => hashable (resolve_pb_id r)) (yielded s) /\
  rows = map (flat_row cur inc pbe p2) (yielded s) /\
  m1 = index_after cur inc pbe p2 (yielded s) m0 /\
  n = List.length (yielded s).
Proof.
  intros Hnp. unfold stream_pass.
  destruct (stream_loop cur inc pbe p2 (yielded s) m0 [] 0) as [rows' [[m' n']|e]] eqn:L;
    [|discriminate].
  destruct (fault s); [discriminate|]. intros H. injection H as <- <- <-.
  pose proof (stream_loop_ok_inv cur inc pbe p2 Hnp _ _ _ _ _ _ L) as Hh.
  rewrite (stream_loop_complete cur inc pbe p2 Hnp _ m0 [] 0 Hh) in L.
  injection L as <- <- <-. repeat split; auto.
Qed.

Lemma product_no_suffix : endswith "Product" custom_suffix = false.
Proof. reflexivity. Qed.


(** What a completed run establishes, in one place. *)
Lemma main_ok_facts (cfg : config) (rem : remote) (files files' : fs) (rep : report) :
  main py_str lower json_dumps cfg rem files = (files', Ok rep) ->
  exists pbe p2 cur m0 pbs,
    let inc := INCLUDE_PRODUCT2_CUSTOM_FIELDS cfg in
    let s := entry_stream cfg rem cur pbe p2 in
    discover_custom_fields (service rem) "PricebookEntry" = Ok pbe /\
    (if inc then discover_custom_fields (service rem) "Product2" else Ok []) = Ok p2 /\
    detect_multi_currency (service rem) = Ok cur /\
    preload (catalog_listing rem) = Ok m0 /\
    Forall (fun s => endswith s custom_suffix = true) pbe /\
    Forall (fun s => endswith s custom_suffix = true) p2 /\
    fault s = None /\
    Forall (fun r => hashable (resolve_pb_id r)) (yielded s) /\
    flat_rows rep = map (flat_row cur inc pbe p2) (yielded s) /\
    total_entry_rows rep = List.length (yielded s) /\
    flat_header rep = header_cols cur inc pbe p2 /\
    sorted_pricebooks lower (index_after cur inc pbe p2 (yielded s) m0) = Ok pbs /\
    exported rep = build_document (clock rem) cur pbe p2 pbs.
Proof.
  intros H.
  destruct (main_ok_inv _ _ _ _ _ H)
    as (pbe & p2 & cur & m0 & m1 & pbs & D1 & D2 & P & PL & SP & HH & SO & EX & _).
  pose proof (discover_custom_fields_suffix _ _ _ D1) as S1.
  assert (S2 : Forall (fun s => endswith s custom_suffix = true) p2).
  { destruct (INCLUDE_PRODUCT2_CUSTOM_FIELDS cfg).
    - apply (discover_custom_fields_suffix _ _ _ D2).
    - injection D2 as <-. constructor. }
  pose proof (suffix_not_in _ _ S1 product_no_suffix) as Hnp.
  destruct (stream_pass_ok_inv _ _ _ _ _ _ _ _ _ Hnp SP) as (F & Hh & R & M & N).
  subst m1.
  exists pbe, p2, cur, m0, pbs. cbv zeta.
  repeat (split; [assumption|]). assumption.
Qed.
End MainProperties.

(** ** The finalizer keeps the catalogs *)

Lemma keyed_snd (lower : string -> string) (cs : list catalog) (ks : list (sort_key * catalog)) :
  keyed lower cs = Ok ks -> map snd ks = cs.
Proof.
  revert ks. induction cs as [|c cs IH]; intros ks H; simpl in H.
  - injection H as <-. reflexivity.
  - destruct (_pb_sort_key lower c); [|discriminate]. cbn [bind] in H.
    destruct (keyed lower cs) as [rest|]; [|discriminate]. cbn [bind] in H.
    injection H as <-. simpl. rewrite (IH rest eq_refl). reflexivity.
Qed.

Lemma sorted_pricebooks_perm (lower : string -> string) (m : pricebooks_map)
    (l : list catalog) :
  sorted_pricebooks lower m = Ok l -> Permutation (map snd m) l.
Proof.
  unfold sorted_pricebooks. destruct (keyed lower (map snd m)) as [ks|] eqn:K; [|discriminate].
  cbn [bind]. intros H. injection H as <-.
  rewrite <- (keyed_snd _ _ _ K). apply Permutation_map, sort_by_key_perm.
Qed.

Lemma pb_sort_key_ok (lower : string -> string) (c : catalog) (k : sort_key) :
  _pb_sort_key lower c = Ok k -> text_or_falsy (Name c).
Proof.
  unfold _pb_sort_key, py_or, text_or_falsy.
  destruct (Name c) as [|b|n|s|d]; simpl; try reflexivity.
  - destruct b; [discriminate | reflexivity].
  - destruct (negb (n =? 0)%Z); [discriminate | reflexivity].
  - destruct d; [reflexivity | discriminate].
Qed.

Lemma keyed_ok_text (lower : string -> string) (cs : list catalog) (ks : list (sort_key * catalog)) :
  keyed lower cs = Ok ks -> Forall (fun c => text_or_falsy (Name c)) cs.
Proof.
  revert ks. induction cs as [|c cs IH]; intros ks H; simpl in H; [constructor|].
  destruct (_pb_sort_key lower c) eqn:K; [|discriminate]. cbn [bind] in H.
  destruct (keyed lower cs) as [rest|]; [|discriminate].
  constructor; [eapply pb_sort_key_ok, K | eapply IH; reflexivity].
Qed.

Lemma sorted_pricebooks_sorted (lower : string -> string) (m : pricebooks_map)
    (l : list catalog) :
  sorted_pricebooks lower m = Ok l -> StronglySorted (catalog_le lower) l.
Proof.
  unfold sorted_pricebooks. destruct (keyed lower (map snd m)) as [ks|] eqn:K; [|discriminate].
  cbn [bind]. intros H. injection H as <-.
  pose proof (keyed_ok_text _ _ _ K) as T. rewrite (keyed_text lower _ T) in K.
  injection K as <-.
  apply sorted_map_snd; [|apply sort_by_key_sorted].
  rewrite Forall_forall. intros kc Hkc.
  apply (Permutation_in _ (Permutation_sym (sort_by_key_perm _))) in Hkc.
  apply in_map_iff in Hkc as (c & <- & _). reflexivity.
Qed.

(** ** Nested entries of the index *)

Lemma pb_lookup_in (m : pricebooks_map) (k : key) (c : catalog) :
  NoDup (map fst m) -> In (k, c) m -> pb_lookup k m = Some c.
Proof.
  induction m as [|[k0 c0] m IH]; simpl; intros Hnd Hin; [contradiction|].
  inversion Hnd as [|? ? Hk0 Hnd']; subst.
  destruct Hin as [E|Hin].
  - injection E as -> ->. rewrite key_eqb_refl. reflexivity.
  - destruct (key_eqb k0 k) eqn:E.
    + apply key_eqb_eq in E. subst. exfalso. apply Hk0.
      apply in_map_iff. exists (k, c). split; [reflexivity | exact Hin].
    + apply IH; assumption.
Qed.

Lemma pb_lookup_some_in (m : pricebooks_map) (k : key) (c : catalog) :
  pb_lookup k m = Some c -> In (k, c) m.
Proof.
  induction m as [|[k0 c0] m IH]; simpl; [discriminate|].
  destruct (key_eqb k0 k) eqn:E.
  - apply key_eqb_eq in E. intros H. injection H as <-. subst. left; reflexivity.
  - intros H. right. apply IH, H.
Qed.

Lemma all_empty_entries (m : pricebooks_map) (k : key) : all_empty m -> entries_of k m = [].
Proof.
  unfold entries_of. intros H. destruct (pb_lookup k m) as [c|] eqn:L; [|reflexivity].
  apply pb_lookup_some_in in L. unfold all_empty in H. rewrite Forall_forall in H.
  apply (H _ L).
Qed.


Lemma index_add_all_entries (k : key) (c0 : catalog) (e : dict) (m : pricebooks_map) :
  Entries c0 = [] -> Permutation (all_entries (index_add k c0 e m)) (all_entries m ++ [e]).
Proof.
  intros H0. unfold all_entries. induction m as [|[k0 c] m IH]; simpl.
  - rewrite H0. reflexivity.
  - destruct (key_eqb k0 k); simpl.
    + rewrite <- !app_assoc. apply Permutation_app_head, Permutation_app_comm.
    + rewrite <- app_assoc. apply Permutation_app_head, IH.
Qed.

Lemma index_after_all_entries (cur inc : bool) (pbe p2 : list string)
    (rs : list dict) (m : pricebooks_map) :
  Permutation (all_entries (index_after cur inc pbe p2 rs m))
    (all_entries m ++ map (nested_entry cur inc pbe p2) rs).
Proof.
  unfold index_after. revert m. induction rs as [|r rs IH]; intros m; simpl.
  - rewrite app_nil_r. reflexivity.
  - rewrite IH. unfold index_step.
    rewrite index_add_all_entries by reflexivity.
    rewrite <- app_assoc. reflexivity.
Qed.

Lemma all_empty_all_entries (m : pricebooks_map) : all_empty m -> all_entries m = [].
Proof.
  unfold all_entries. induction 1 as [|kc m H _ IH]; simpl; [reflexivity|].
  rewrite H, IH. reflexivity.
Qed.


(** The nesting a pass establishes, from an index preloaded with empty
    entry lists: each catalog holds, in stream order, the entries of the
    records resolved to its identity, and each record has its catalog. *)
Lemma index_after_nesting (cur inc : bool) (pbe p2 : list string)
    (rs : list dict) (m0 : pricebooks_map) :
  Forall (fun r => hashable (resolve_pb_id r)) rs ->
  index_wf m0 -> all_empty m0 ->
  let m1 := index_after cur inc pbe p2 rs m0 in
  index_wf m1 /\
  (forall c, In c (map snd m1) ->
     exists k, hash_key (Id c) = Ok k /\
               Entries c = map (nested_entry cur inc pbe p2)
                             (filter (fun r => key_eqb (record_key r) k) rs)) /\
  (forall r, In r rs ->
     exists c, In c (map snd m1) /\ hash_key (Id c) = Ok (record_key r)) /\
  Permutation (all_entries m1) (map (nested_entry cur inc pbe p2) rs).
Proof.
  intros Hh Hwf He m1.
  pose proof (index_after_wf cur inc pbe p2 rs m0 Hh Hwf) as Hwf1. fold m1 in Hwf1.
  split; [exact Hwf1|]. split; [|split].
  - intros c Hc. apply in_map_iff in Hc as ([k c1] & <- & Hc). simpl.
    destruct Hwf1 as [Hnd Hk]. rewrite Forall_forall in Hk.
    exists k. split; [apply (Hk _ Hc)|].
    pose proof (index_after_entries cur inc pbe p2 rs m0 k) as E.
    fold m1 in E. unfold entries_of at 1 in E.
    rewrite (pb_lookup_in _ _ _ Hnd Hc) in E.
    rewrite E, (all_empty_entries _ _ He). reflexivity.
  - intros r Hr.
    assert (Hin : In (record_key r) (map fst m1)).
    { apply index_after_keys. right. apply in_map, Hr. }
    apply in_map_iff in Hin as ([k c] & Hk & Hc). simpl in Hk. subst k.
    exists c. split; [apply in_map_iff; exists (record_key r, c); split; [reflexivity|exact Hc]|].
    destruct Hwf1 as [_ Hk]. rewrite Forall_forall in Hk. apply (Hk _ Hc).
  - unfold m1. rewrite index_after_all_entries, (all_empty_all_entries _ He). reflexivity.
Qed.

(** ** The example run completes *)

Lemma example_run_ok : example_run = (fst example_run, Ok example_report).
Proof. vm_compute. reflexivity. Qed.

(** ** Row count and entry count *)



(** ** The flat row and the nested entry of a record agree *)



Section RecordProperties.
Variable cur : bool.
Variable inc : bool.
Variable pbe : list string.
Variable p2 : list string.
Hypothesis no_product : ~ In "Product" pbe.



End RecordProperties.

(** ** Flat rows and nested entries of a completed run *)

Lemma completed_run (py_str : value -> string) (lower : string -> string)
    (json_dumps : document -> string)
    (cfg : config) (rem : remote) (files files' : fs) (rep : report) :
  main py_str lower json_dumps cfg rem files = (files', Ok rep) ->
  let inc := INCLUDE_PRODUCT2_CUSTOM_FIELDS cfg in
  let records := run_records cfg rem rep in
  Forall (fun s => endswith s custom_suffix = true) (run_pbe rep) /\
  Forall (fun s => endswith s custom_suffix = true) (run_p2 rep) /\
  discover_custom_fields (service rem) "PricebookEntry" = Ok (run_pbe rep) /\
  (if inc then discover_custom_fields (service rem) "Product2" else Ok []) = Ok (run_p2 rep) /\
  detect_multi_currency (service rem) = Ok (run_cur rep) /\
  flat_header rep = header_cols (run_cur rep) inc (run_pbe rep) (run_p2 rep) /\
  flat_rows rep = map (run_row cfg rep) records /\
  Forall (fun r => hashable (resolve_pb_id r)) records /\
  pricebook_count (exported rep) = List.length (pricebooks (exported rep)) /\
  exists m0,
    preload (catalog_listing rem) = Ok m0 /\
    sorted_pricebooks lower
      (index_after (run_cur rep) inc (run_pbe rep) (run_p2 rep) records m0)
    = Ok (pricebooks (exported rep)).
Proof.
  intros H.
  destruct (main_ok_facts _ _ _ _ _ _ _ _ H)
    as (pbe & p2 & cur & m0 & pbs & D1 & D2 & P & PL & S1 & S2 & F & Hh & R & N & HH & SO & EX).
  unfold run_records, run_row, run_cur, run_pbe, run_p2. rewrite EX.
  cbn [multi_currency included_custom_fields fst snd build_document pricebooks
       pricebook_count].
  repeat (split; [first [assumption | reflexivity]|]).
  exists m0. split; assumption.
Qed.



Lemma discover_custom_fields_selected_witness :
  discover_custom_fields (service example_remote) "PricebookEntry" =
  Ok ["Discount__c"; "Tier__c"].
Proof.
  apply (discover_custom_fields_selected (service example_remote) "PricebookEntry"
           (Some [[("name", VStr "Id")];
                  [("name", VStr "Discount__c"); ("queryable", VBool true)];
                  [("name", VStr "Legacy__c"); ("deprecatedAndHidden", VBool true)];
                  [("name", VStr "Hidden__c"); ("queryable", VBool false)];
                  [("name", VStr "Tier__c")]])).
  - reflexivity.
  - repeat constructor.
Defined.

(** ** Sort order of the document *)

(** C9.  The finalizer returns the catalogs of the index, each as it is,
    ordered by the two-part key: standard catalogs first, then the
    case-folded name ascending, a missing name counting as the empty
    string.  In the document of a completed run the catalog array is in that
    order and every catalog's entry array is in stream order.  In
    particular the catalogs Zeta, alpha (not standard) and Base (standard)
    come out as Base, alpha, Zeta. *)
Theorem sorted_pricebooks_order (lower : string -> string) :
  (forall m : pricebooks_map,
     Forall (fun c => text_or_falsy (Name c)) (map snd m) ->
     exists l, sorted_pricebooks lower m = Ok l /\
               Permutation (map snd m) l /\
               StronglySorted (catalog_le lower) l) /\
  (forall py_str json_dumps cfg rem files files' rep,
     main py_str lower json_dumps cfg rem files = (files', Ok rep) ->
     StronglySorted (catalog_le lower) (pricebooks (exported rep)) /\
     forall c, In c (pricebooks (exported rep)) ->
       exists k, hash_key (Id c) = Ok k /\
                 Entries c = map (run_entry cfg rep)
                               (filter (fun r => key_eqb (record_key r) k)
                                  (run_records cfg rem rep))) /\
  (lower "Zeta" = "zeta" -> lower "alpha" = "alpha" ->
   exists l, sorted_pricebooks lower example_index = Ok l /\
             map Name l = [VStr "Base"; VStr "alpha"; VStr "Zeta"]).
Proof.
  split; [|split].
  - intros m H. unfold sorted_pricebooks. rewrite (keyed_text lower _ H). simpl.
    eexists; split; [reflexivity|]. split.
    + transitivity
        (map snd (map (fun c => ((rank c, lower (name_or_empty c)), c)) (map snd m))).
      * rewrite (map_map _ snd). simpl. rewrite map_id. reflexivity.
      * apply Permutation_map, sort_by_key_perm.
    + apply sorted_map_snd; [|apply sort_by_key_sorted].
      rewrite Forall_forall. intros kc Hkc.
      apply (Permutation_in _ (Permutation_sym (sort_by_key_perm _))) in Hkc.
      apply in_map_iff in Hkc as (c & <- & _). reflexivity.
  - intros py_str json_dumps cfg rem files files' rep H.
    destruct (completed_run _ _ _ _ _ _ _ _ H)
      as (_ & _ & _ & _ & _ & _ & _ & Hh & _ & m0 & PL & SO).
    destruct (preload_props _ _ PL) as (_ & Hwf & He & _).
    split; [apply (sorted_pricebooks_sorted _ _ _ SO)|].
    intros c Hc.
    destruct (index_after_nesting (run_cur rep) (INCLUDE_PRODUCT2_CUSTOM_FIELDS cfg)
                (run_pbe rep) (run_p2 rep) (run_records cfg rem rep) m0 Hh Hwf He)
      as (_ & Hent & _ & _).
    apply Hent.
    apply (Permutation_in _ (Permutation_sym (sorted_pricebooks_perm _ _ _ SO))), Hc.
  - intros HZ Ha. unfold sorted_pricebooks, example_index. simpl.
    unfold _pb_sort_key; simpl. rewrite HZ, Ha. simpl.
    eexists; split; reflexivity.
Qed.

Lemma sorted_pricebooks_order_witness :
  exists l, sorted_pricebooks ascii_lower example_index = Ok l /\
            map Name l = [VStr "Base"; VStr "alpha"; VStr "Zeta"].
Proof.
  apply (proj2 (proj2 (sorted_pricebooks_order ascii_lower))); reflexivity.
Defined.

(** ** Records without an embedded parent *)

Lemma index_after_lookup_some (cur inc : bool) (pbe p2 : list string)
    (rs : list dict) (m : pricebooks_map) (k : key) (c : catalog) :
  pb_lookup k m = Some c ->
  exists c', pb_lookup k (index_after cur inc pbe p2 rs m) = Some c' /\
             attributes c' = attributes c.
Proof.
  unfold index_after. revert m c. induction rs as [|r rs IH]; intros m c H; simpl.
  - exists c. split; [exact H | reflexivity].
  - destruct (IH (index_step cur inc pbe p2 m r)
                (if key_eqb (record_key r) k
                 then append_entry (nested_entry cur inc pbe p2 r) c else c))
      as (c' & L & A).
    + unfold index_step. rewrite index_add_lookup.
      destruct (key_eqb (record_key r) k) eqn:E; [|exact H].
      apply key_eqb_eq in E. rewrite E, H. reflexivity.
    + exists c'. split; [exact L|]. rewrite A.
      destruct (key_eqb (record_key r) k); reflexivity.
Qed.

Lemma pb_lookup_none (m : pricebooks_map) (k : key) :
  pb_lookup k m = None <-> ~ In k (map fst m).
Proof.
  rewrite <- pb_mem_in. unfold pb_mem. destruct (pb_lookup k m); split; congruence.
Qed.

Lemma nodup_filter_one (m : pricebooks_map) (k : key) :
  NoDup (map fst m) -> In k (map fst m) ->
  List.length (filter (fun kc => key_eqb (fst kc) k) m) = 1.
Proof.
  induction m as [|[k0 c0] m IH]; simpl; intros Hnd Hin; [contradiction|].
  inversion Hnd as [|? ? Hk0 Hnd']; subst.
  destruct (key_eqb k0 k) eqn:E; simpl.
  - apply key_eqb_eq in E. subst k0. f_equal.
    assert (Z : forall l : pricebooks_map, ~ In k (map fst l) ->
                filter (fun kc => key_eqb (fst kc) k) l = []).
    { induction l as [|[k1 c1] l IHl]; simpl; intros Hn; [reflexivity|].
      destruct (key_eqb k1 k) eqn:E1.
      - apply key_eqb_eq in E1. subst. exfalso. apply Hn. left; reflexivity.
      - apply IHl. intros Hl. apply Hn. right; exact Hl. }
    rewrite (Z m Hk0). reflexivity.
  - apply key_eqb_neq in E. destruct Hin as [Hin|Hin]; [contradiction|].
    apply IH; assumption.
Qed.

Lemma safe_rel_absent (r : dict) (rel_name k : string) (default : value) :
  (forall d, get r rel_name <> VDict d) -> safe_rel r rel_name k default = default.
Proof.
  unfold safe_rel. intros H. destruct (get r rel_name) as [| | | |d]; try reflexivity.
  exfalso. apply (H d). reflexivity.
Qed.

(** C6.  A record whose parent sub-object is absent and whose flat
    parent-identity field holds an identity is resolved to that identity and
    is processed without an exception.  After a pass over a stream that
    contains the record, the index has exactly one catalog with that
    identity, its entry list contains the record's entry, and, when the
    identity was neither preloaded nor seen earlier in the stream, the
    catalog was created with that identity and no other attribute. *)
Theorem missing_parent_falls_back (cur inc : bool) (pbe p2 : list string)
    (r : dict) (id : string) :
  Forall (fun s => endswith s custom_suffix = true) pbe ->
  (forall d, get r "Pricebook2" <> VDict d) ->
  get r "Pricebook2Id" = VStr id ->
  resolve_pb_id r = VStr id /\
  (forall m, process_record cur inc pbe p2 m r =
             Ok (index_step cur inc pbe p2 m r, flat_row cur inc pbe p2 r)) /\
  (forall (s : stream) (m0 : pricebooks_map) (pre post : list dict),
     yielded s = (pre ++ r :: post)%list -> fault s = None ->
     Forall (fun r' => hashable (resolve_pb_id r')) (yielded s) ->
     index_wf m0 ->
     exists rows m1 n,
       stream_pass cur inc pbe p2 s m0 = (rows, Ok (m1, n)) /\
       List.length (filter (fun kc => key_eqb (fst kc) (KStr id)) m1) = 1 /\
       exists c, pb_lookup (KStr id) m1 = Some c /\
                 In (nested_entry cur inc pbe p2 r) (Entries c) /\
                 (pb_mem (KStr id) m0 = false ->
                  ~ In (KStr id) (map record_key pre) ->
                  attributes c = [VStr id; VNone; VNone; VNone; VNone; VNone; VNone])).
Proof.
  intros Hs Habs Hid.
  pose proof (suffix_not_in _ _ Hs product_no_suffix) as Hnp.
  assert (Hres : resolve_pb_id r = VStr id).
  { unfold resolve_pb_id, py_or. rewrite (safe_rel_absent _ _ _ _ Habs). simpl. exact Hid. }
  assert (Hkey : record_key r = KStr id).
  { unfold record_key. rewrite Hres. reflexivity. }
  split; [exact Hres|]. split.
  - intros m. apply process_record_hashable; [exact Hnp|]. rewrite Hres. exact I.
  - intros s m0 pre post Hy Hf Hh Hwf.
    unfold stream_pass.
    rewrite (stream_loop_complete cur inc pbe p2 Hnp _ m0 [] 0 Hh), Hf.
    do 3 eexists. split; [reflexivity|].
    pose proof (index_after_wf cur inc pbe p2 _ m0 Hh Hwf) as [Hnd1 _].
    assert (Hin : In (KStr id) (map fst (index_after cur inc pbe p2 (yielded s) m0))).
    { apply index_after_keys. right. rewrite Hy, map_app. apply in_or_app. right.
      left. exact Hkey. }
    split; [apply nodup_filter_one; assumption|].
    (* the catalog after the record itself, then preserved over the rest *)
    rewrite Hy. unfold index_after. rewrite fold_left_app. simpl.
    fold (index_after cur inc pbe p2 pre m0).
    set (m_pre := index_after cur inc pbe p2 pre m0).
    set (c_r := append_entry (nested_entry cur inc pbe p2 r)
                  (match pb_lookup (KStr id) m_pre with
                   | Some c => c
                   | None => catalog_of_record (resolve_pb_id r) (resolve_pb_name r) r
                   end)).
    assert (L : pb_lookup (KStr id) (index_step cur inc pbe p2 m_pre r) = Some c_r).
    { unfold index_step. rewrite index_add_lookup, Hkey, key_eqb_refl. reflexivity. }
    fold (index_after cur inc pbe p2 post (index_step cur inc pbe p2 m_pre r)).
    pose proof (index_after_entries cur inc pbe p2 post
                  (index_step cur inc pbe p2 m_pre r) (KStr id)) as E.
    destruct (index_after_lookup_some cur inc pbe p2 post _ _ _ L) as (c & Lc & A).
    exists c. split; [exact Lc|]. split.
    + unfold entries_of in E. rewrite Lc, L in E. rewrite E.
      apply in_or_app. left. unfold c_r. simpl. apply in_or_app. right. left. reflexivity.
    + intros Hm0 Hpre. rewrite A. unfold c_r.
      assert (N : pb_lookup (KStr id) m_pre = None).
      { apply pb_lookup_none. unfold m_pre. rewrite index_after_keys.
        intros [H|H]; [|contradiction].
        apply pb_mem_in in H. congruence. }
      rewrite N. unfold attributes, catalog_of_record, resolve_pb_name. simpl.
      rewrite Hres, !(safe_rel_absent _ _ _ _ Habs). reflexivity.
Qed.

Lemma missing_parent_falls_back_witness :
  let r := example_record "e2" "pbX" "p1" 12 None in
  resolve_pb_id r = VStr "pbX" /\
  exists rows m1 n,
    stream_pass true true ["Discount__c"; "Tier__c"] ["Color__c"]
      {| yielded := example_records; fault := None |} [] = (rows, Ok (m1, n)) /\
    List.length (filter (fun kc => key_eqb (fst kc) (KStr "pbX")) m1) = 1 /\
    exists c, pb_lookup (KStr "pbX") m1 = Some c /\
              In (nested_entry true true ["Discount__c"; "Tier__c"] ["Color__c"] r)
                (Entries c) /\
              attributes c = [VStr "pbX"; VNone; VNone; VNone; VNone; VNone; VNone].
Proof.
  intros r.
  destruct (missing_parent_falls_back true true ["Discount__c"; "Tier__c"] ["Color__c"]
              r "pbX") as (H1 & _ & H3).
  - repeat constructor.
  - intros d. vm_compute. discriminate.
  - reflexivity.
  - split; [exact H1|].
    destruct (H3 {| yielded := example_records; fault := None |} []
                [example_record "e1" "pbZ" "p1" 10 (Some "Zeta")]
                [example_record "e3" "pbZ" "p2" 7 (Some "Zeta")])
      as (rows & m1 & n & P & C & c & L & I & A).
    + reflexivity.
    + reflexivity.
    + repeat constructor.
    + split; constructor.
    + exists rows, m1, n. split; [exact P|]. split; [exact C|].
      exists c. split; [exact L|]. split; [exact I|].
      apply A; [reflexivity|]. vm_compute. intros [H|[]]. discriminate.
Defined.

(** ** The currency column *)








(** ** The single-catalog restriction *)

Lemma preload_loop_hashable (pbs : list dict) (m m' : pricebooks_map) :
  preload_loop pbs m = Ok m' ->
  Forall (fun pb => exists k, hash_key (get pb "Id") = Ok k) pbs.
Proof.
  revert m. induction pbs as [|pb pbs IH]; intros m H; simpl in H; [constructor|].
  destruct (preload_step pb m) as [m1|] eqn:S1; [|discriminate]. cbn [bind] in H.
  destruct (preload_step_ok _ _ _ S1) as (id & k & c & Hid & Hk & _).
  constructor; [|apply (IH _ H)].
  exists k. unfold get. rewrite Hid. exact Hk.
Qed.

Lemma preload_hashable (s : stream) (m : pricebooks_map) :
  preload s = Ok m ->
  Forall (fun pb => exists k, hash_key (get pb "Id") = Ok k) (yielded s).
Proof.
  unfold preload. destruct (preload_loop (yielded s) []) as [m0|] eqn:L; [|discriminate].
  intros _. apply (preload_loop_hashable _ _ _ L).
Qed.

Lemma filter_none {A} (f : A -> bool) (l : list A) :
  (forall x, In x l -> f x = false) -> filter f l = [].
Proof.
  induction l as [|x l IH]; simpl; intros H; [reflexivity|].
  rewrite (H x (or_introl eq_refl)). apply IH. intros y Hy. apply H. right; exact Hy.
Qed.

Lemma build_flat_pbe_soql_restricted (cur : bool) (pbe p2 : list string) (pid : string) :
  pid <> EmptyString ->
  build_flat_pbe_soql cur pbe p2 (Some pid) =
  build_flat_pbe_soql cur pbe p2 None ++ " WHERE Pricebook2Id = '" ++ pid ++ "'".
Proof.
  intros H. unfold build_flat_pbe_soql, truthy_opt.
  rewrite (proj2 (String.eqb_neq pid EmptyString) H). reflexivity.
Qed.

(** C10.  With a single-catalog restriction configured, the catalog
    listing query carries no filter and the entry query is the unrestricted
    one followed by the equality filter.  The document of a completed run
    has a catalog for every catalog of the listing; a catalog no record is
    resolved to (every catalog other than the restricted one, when the
    records respect the restriction) has an empty entry list; and the
    catalog count is the length of the catalog array, so it is at least the
    number of distinct identities in the listing. *)
Theorem restriction_keeps_all_catalogs (py_str : value -> string)
    (lower : string -> string) (json_dumps : document -> string)
    (cfg : config) (rem : remote) (files files' : fs) (rep : report) (pid : string) :
  PRICEBOOK2_ID cfg = Some pid -> pid <> EmptyString ->
  main py_str lower json_dumps cfg rem files = (files', Ok rep) ->
  let records := run_records cfg rem rep in
  let catalogs := pricebooks (exported rep) in
  let listing := yielded (catalog_listing rem) in
  build_all_pricebooks_soql =
    "SELECT Id, Name, IsActive, IsStandard, Description, CreatedDate, LastModifiedDate FROM Pricebook2" /\
  records =
    yielded (query_all_iter (service rem)
               (build_flat_pbe_soql (run_cur rep) (run_pbe rep) (run_p2 rep) None ++
                " WHERE Pricebook2Id = '" ++ pid ++ "'")) /\
  (forall pb, In pb listing ->
     exists c, In c catalogs /\ hash_key (Id c) = hash_key (get pb "Id")) /\
  (forall c k, In c catalogs -> hash_key (Id c) = Ok k ->
     (forall r, In r records -> record_key r <> k) -> Entries c = []) /\
  ((forall r, In r records -> record_key r = KStr pid) ->
   forall c, In c catalogs -> hash_key (Id c) <> Ok (KStr pid) -> Entries c = []) /\
  pricebook_count (exported rep) = List.length catalogs /\
  (forall ks, NoDup ks ->
     (forall k, In k ks -> exists pb, In pb listing /\ hash_key (get pb "Id") = Ok k) ->
     List.length ks <= pricebook_count (exported rep)).
Proof.
  intros Hpid Hne H records catalogs listing.
  destruct (completed_run _ _ _ _ _ _ _ _ H)
    as (S1 & S2 & _ & _ & _ & _ & _ & Hh & Hcount & m0 & PL & SO).
  fold records in Hh, SO.
  destruct (preload_props _ _ PL) as (_ & Hwf & Hemp & Hkeys0).
  pose proof (preload_hashable _ _ PL) as Hlist.
  pose proof (sorted_pricebooks_perm _ _ _ SO) as Perm. fold catalogs in Perm.
  set (m1 := index_after (run_cur rep) (INCLUDE_PRODUCT2_CUSTOM_FIELDS cfg)
               (run_pbe rep) (run_p2 rep) records m0) in *.
  destruct (index_after_nesting (run_cur rep) (INCLUDE_PRODUCT2_CUSTOM_FIELDS cfg)
              (run_pbe rep) (run_p2 rep) records m0 Hh Hwf Hemp)
    as (Hwf1 & Hent & _ & _).
  fold m1 in Hwf1, Hent.
  assert (Hlisted : forall pb k, In pb listing -> hash_key (get pb "Id") = Ok k ->
                                 In k (map fst m1)).
  { intros pb k Hpb Hk. unfold m1. apply index_after_keys. left.
    apply Hkeys0. exists pb. split; assumption. }
  assert (Hempty : forall c k, In c catalogs -> hash_key (Id c) = Ok k ->
                     (forall r, In r records -> record_key r <> k) -> Entries c = []).
  { intros c k Hc Hk Hno.
    apply (Permutation_in _ (Permutation_sym Perm)) in Hc.
    destruct (Hent c Hc) as (k' & Hk' & E). rewrite Hk in Hk'. injection Hk' as <-.
    rewrite E, filter_none; [reflexivity|].
    intros r Hr. apply key_eqb_neq, Hno, Hr. }
  split; [reflexivity|]. split; [|split; [|split; [|split; [|split]]]].
  - unfold records, run_records, entry_stream.
    rewrite Hpid, build_flat_pbe_soql_restricted by exact Hne. reflexivity.
  - intros pb Hpb. unfold listing in Hpb.
    rewrite Forall_forall in Hlist. destruct (Hlist pb Hpb) as [k Hk].
    pose proof (Hlisted pb k Hpb Hk) as Hin.
    apply in_map_iff in Hin as ([k' c] & Ek & Hc). simpl in Ek. subst k'.
    exists c. split.
    + apply (Permutation_in _ Perm). apply in_map_iff.
      exists (k, c). split; [reflexivity | exact Hc].
    + destruct Hwf1 as [_ Hk1]. rewrite Forall_forall in Hk1.
      rewrite Hk. apply (Hk1 _ Hc).
  - exact Hempty.
  - intros Hall c Hc Hk.
    assert (Hc' := Hc). apply (Permutation_in _ (Permutation_sym Perm)) in Hc'.
    destruct (Hent c Hc') as (k & Hk' & _).
    apply (Hempty c k Hc Hk'). intros r Hr E. rewrite (Hall r Hr) in E.
    subst k. contradiction.
  - exact Hcount.
  - intros ks Hnd Hks. rewrite Hcount. fold catalogs.
    rewrite <- (Permutation_length Perm), length_map, <- (length_map fst).
    apply NoDup_incl_length; [exact Hnd|].
    intros k Hk. destruct (Hks k Hk) as (pb & Hpb & Hh'). apply (Hlisted pb k Hpb Hh').
Qed.

Lemma restriction_keeps_all_catalogs_witness :
  pricebook_count (exported example_report_restricted) = 3 /\
  forall c, In c (pricebooks (exported example_report_restricted)) ->
            hash_key (Id c) <> Ok (KStr "pbZ") -> Entries c = [].
Proof.
  destruct (restriction_keeps_all_catalogs example_str ascii_lower example_dumps
              example_cfg_restricted example_remote_restricted []
              (fst example_run_restricted) example_report_restricted "pbZ")
    as (_ & _ & _ & _ & Hout & Hcount & _).
  - reflexivity.
  - discriminate.
  - vm_compute. reflexivity.
  - split.
    + rewrite Hcount. vm_compute. reflexivity.
    + apply Hout. intros r Hr. vm_compute in Hr.
      destruct Hr as [<-|[<-|[]]]; reflexivity.
Defined.

(** ** A fault in the middle of the stream *)

Lemma string_app_assoc (a b c : string) : (a ++ b) ++ c = a ++ (b ++ c).
Proof. induction a as [|x a IH]; simpl; [reflexivity | rewrite IH; reflexivity]. Qed.

Lemma string_app_nil_r (a : string) : a ++ EmptyString = a.
Proof. induction a as [|x a IH]; simpl; [reflexivity | rewrite IH; reflexivity]. Qed.

Lemma concat_empty_app (l l' : list string) :
  String.concat EmptyString (l ++ l') =
  String.concat EmptyString l ++ String.concat EmptyString l'.
Proof.
  induction l as [|x l IH]; [reflexivity|].
  destruct l as [|y l].
  - simpl. destruct l' as [|z l']; simpl; [rewrite string_app_nil_r|]; reflexivity.
  - change (String.concat EmptyString ((x :: y :: l) ++ l'))
      with (x ++ String.concat EmptyString ((y :: l) ++ l')).
    rewrite IH.
    change (String.concat EmptyString (x :: y :: l))
      with (x ++ String.concat EmptyString (y :: l)).
    rewrite string_app_assoc. reflexivity.
Qed.

(** The text of the flat file grows at the end: what was written for the
    first rows is a prefix of what is written for more rows. *)
Lemma flat_text_prefix (py_str : value -> string) (header : list string)
    (rows more : list dict) :
  exists rest, flat_text py_str header (rows ++ more) =
               flat_text py_str header rows ++ rest.
Proof.
  unfold flat_text. rewrite map_app, concat_empty_app.
  eexists. rewrite string_app_assoc. reflexivity.
Qed.

(** C5.  When the run has reached the streaming pass and the record source
    raises a malformed-request fault after yielding some records, the fault
    leaves [main] unchanged and the script exits with status 1; the only
    file written is the flat file, which holds the header and the rows of
    the records yielded before the fault and is left as it is; the
    hierarchical document is not written. *)
Theorem streaming_fault_is_fatal (py_str : value -> string)
    (lower : string -> string) (json_dumps : document -> string)
    (cfg : config) (rem : remote) (files : fs)
    (pbe p2 : list string) (cur : bool) (m0 : pricebooks_map) (msg : string) :
  login_salesforce cfg rem = Ok (service rem) ->
  discover_custom_fields (service rem) "PricebookEntry" = Ok pbe ->
  (if INCLUDE_PRODUCT2_CUSTOM_FIELDS cfg
   then discover_custom_fields (service rem) "Product2" else Ok []) = Ok p2 ->
  detect_multi_currency (service rem) = Ok cur ->
  preload (catalog_listing rem) = Ok m0 ->
  fault (entry_stream cfg rem cur pbe p2) = Some (SalesforceMalformedRequest msg) ->
  Forall (fun r => hashable (resolve_pb_id r)) (yielded (entry_stream cfg rem cur pbe p2)) ->
  let inc := INCLUDE_PRODUCT2_CUSTOM_FIELDS cfg in
  let header := header_cols cur inc pbe p2 in
  let rows := map (flat_row cur inc pbe p2) (yielded (entry_stream cfg rem cur pbe p2)) in
  let files' := write_file (OUTPUT_CSV_NAME cfg) (flat_text py_str header rows) files in
  main py_str lower json_dumps cfg rem files = (files', Raise (SalesforceMalformedRequest msg)) /\
  script py_str lower json_dumps cfg rem files = (files', 1%Z) /\
  lookup (OUTPUT_CSV_NAME cfg) files' = Some (flat_text py_str header rows) /\
  (forall more, exists rest,
     flat_text py_str header (rows ++ more) = flat_text py_str header rows ++ rest) /\
  (forall path, path <> OUTPUT_CSV_NAME cfg -> lookup path files' = lookup path files) /\
  (OUTPUT_JSON_NAME cfg <> OUTPUT_CSV_NAME cfg ->
   lookup (OUTPUT_JSON_NAME cfg) files' = lookup (OUTPUT_JSON_NAME cfg) files).
Proof.
  intros L D1 D2 P PL F Hh inc header rows files'.
  pose proof (discover_custom_fields_suffix _ _ _ D1) as S1.
  pose proof (suffix_not_in _ _ S1 product_no_suffix) as Hnp.
  assert (M : main py_str lower json_dumps cfg rem files =
              (files', Raise (SalesforceMalformedRequest msg))).
  { unfold files', rows, header, inc. clear files' rows header.
    unfold main. rewrite L, D1, D2, P.
    unfold catalog_listing in PL. rewrite PL.
    unfold entry_stream in *. cbv zeta. unfold stream_pass.
    rewrite (stream_loop_complete cur _ pbe p2 Hnp _ m0 [] 0 Hh), F.
    reflexivity. }
  assert (O : forall path, path <> OUTPUT_CSV_NAME cfg ->
                           lookup path files' = lookup path files).
  { intros path Hp. unfold files', write_file. rewrite lookup_dict_set.
    destruct (OUTPUT_CSV_NAME cfg =? path) eqn:E; [|reflexivity].
    apply String.eqb_eq in E. congruence. }
  split; [exact M|]. split; [unfold script; rewrite M; reflexivity|].
  split; [unfold files', write_file; rewrite lookup_dict_set, String.eqb_refl; reflexivity|].
  split; [intros more; apply flat_text_prefix|].
  split; [exact O|]. intros Hj. apply O, Hj.
Qed.

Lemma streaming_fault_is_fatal_witness :
  snd (main example_str ascii_lower example_dumps example_cfg example_remote_faulty [])
    = Raise (SalesforceMalformedRequest "Malformed request") /\
  snd (script example_str ascii_lower example_dumps example_cfg example_remote_faulty [])
    = 1%Z /\
  lookup "pricebooks_export.json"
    (fst (main example_str ascii_lower example_dumps example_cfg example_remote_faulty []))
    = None.
Proof.
  destruct (streaming_fault_is_fatal example_str ascii_lower example_dumps example_cfg
              example_remote_faulty [] ["Discount__c"; "Tier__c"] ["Color__c"] true
              [(KStr "pbZ", {| Id := VStr "pbZ"; Name := VStr "Zeta"; IsActive := VBool true;
                               IsStandard := VBool false; Description := VNone;
                               CreatedDate := VNone; LastModifiedDate := VNone;
                               Entries := [] |});
               (KStr "pbA", {| Id := VStr "pbA"; Name := VStr "alpha"; IsActive := VBool true;
                               IsStandard := VBool false; Description := VNone;
                               CreatedDate := VNone; LastModifiedDate := VNone;
                               Entries := [] |});
               (KStr "pbB", {| Id := VStr "pbB"; Name := VStr "Base"; IsActive := VBool true;
                               IsStandard := VBool true; Description := VNone;
                               CreatedDate := VNone; LastModifiedDate := VNone;
                               Entries := [] |})]
              "Malformed request")
    as (M & S & _ & _ & _ & J).
  - reflexivity.
  - reflexivity.
  - reflexivity.
  - reflexivity.
  - reflexivity.
  - reflexivity.
  - repeat constructor.
  - rewrite M, S. split; [reflexivity|]. split; [reflexivity|].
    cbn [fst]. etransitivity; [apply J; discriminate | reflexivity].
Defined.

(** ** Reading the flat file back *)

Module csv_facts.
Import csv csv_scan.

Lemma parse_chars_app (d : dialect) (p : parser) (a b : string) :
  parse_chars d p (a ++ b) =
  match parse_chars d p a with
  | Ok p' => parse_chars d p' b
  | Raise e => Raise e
  end.
Proof.
  revert p. induction a as [|c a IH]; intros p; simpl; [reflexivity|].
  destruct (parse_process_char d p (Ch c)); simpl; [apply IH | reflexivity].
Qed.

Lemma lines_of_cons (text cur : string) :
  cur <> EmptyString -> exists x ls, lines_of text cur = (cur ++ x) :: ls.
Proof.
  revert cur. induction text as [|c t IH]; intros cur Hc; simpl.
  - destruct cur; [contradiction|]. exists EmptyString, [].
    rewrite <- (string_app_nil_r (String a cur)) at 1. reflexivity.
  - destruct (c =? LF)%char; [eexists _, _; reflexivity|].
    destruct (c =? CR)%char.
    + destruct t as [|c2 t'']; [eexists _, _; reflexivity|].
      destruct (c2 =? LF)%char; eexists _, _; reflexivity.
    + destruct (IH (cur ++ String c EmptyString)) as (x & ls & E).
      { destruct cur; discriminate. }
      rewrite E, string_app_assoc. eexists _, _; reflexivity.
Qed.

Lemma reader_loop_parse_error (d : dialect) (text cur : string) (p0 : parser)
    (rows : list (list string)) (e : exn) :
  parse_chars d p0 cur = Raise e ->
  reader_loop d (lines_of text cur) p0 rows = (rows, Some e).
Proof.
  intros H.
  destruct (lines_of_cons text cur) as (x & ls & E).
  { intros ->. discriminate H. }
  rewrite E. simpl. unfold parse_line. rewrite parse_chars_app, H. reflexivity.
Qed.

Lemma reader_loop_line (d : dialect) (line : string) (lines : list string)
    (p0 p : parser) (rows : list (list string)) :
  parse_chars d p0 line = Ok p ->
  reader_loop d (line :: lines) p0 rows =
  end_line d p rows (fun p2 rows' => reader_loop d lines p2 rows').
Proof.
  intros H. simpl. unfold parse_line, end_line. rewrite H. simpl.
  destruct (parse_process_char d p EOL); reflexivity.
Qed.

Lemma end_line_ext (d : dialect) (p : parser) (rows : list (list string))
    (k k' : parser -> list (list string) -> list (list string) * option exn) :
  (forall q r, k q r = k' q r) -> end_line d p rows k = end_line d p rows k'.
Proof.
  intros H. unfold end_line. destruct (parse_process_char d p EOL); [|reflexivity].
  destruct (is_start_record (state a)); apply H.
Qed.

Lemma parse_chars_snoc (d : dialect) (p0 p : parser) (cur : string) (c : ascii) :
  parse_chars d p0 cur = Ok p ->
  parse_chars d p0 (cur ++ String c EmptyString) =
  parse_process_char d p (Ch c).
Proof.
  intros H. rewrite parse_chars_app, H. simpl.
  destruct (parse_process_char d p (Ch c)); reflexivity.
Qed.

(** The reader over the lines of a text is the character-level scan. *)
Lemma reader_loop_scan (d : dialect) (n : nat) :
  forall (text cur : string) (p0 p : parser) (rows : list (list string)),
    String.length text <= n ->
    parse_chars d p0 cur = Ok p ->
    reader_loop d (lines_of text cur) p0 rows =
    scan d text p (negb (cur =? EmptyString)) rows.
Proof.
  induction n as [|n IH]; intros text cur p0 p rows Hlen Hp.
  - destruct text; [|simpl in Hlen; lia]. simpl.
    destruct cur as [|a cur].
    + simpl in Hp. injection Hp as <-. reflexivity.
    + rewrite (reader_loop_line d _ [] p0 p rows Hp). reflexivity.
  - destruct text as [|c t].
    + simpl. destruct cur as [|a cur].
      * simpl in Hp. injection Hp as <-. reflexivity.
      * rewrite (reader_loop_line d _ [] p0 p rows Hp). reflexivity.
    + simpl in Hlen. cbn [lines_of scan].
      pose proof (parse_chars_snoc d p0 p cur c Hp) as Hc.
      destruct (c =? LF)%char eqn:ELF.
      { destruct (parse_process_char d p (Ch c)) as [p1|e] eqn:P1.
        - rewrite (reader_loop_line d _ _ p0 p1 rows Hc). cbn [orb].
          apply end_line_ext. intros q r.
          apply (IH t EmptyString q q r); [lia | reflexivity].
        - simpl. unfold parse_line. rewrite Hc. reflexivity. }
      destruct (c =? CR)%char eqn:ECR.
      { cbn [orb andb].
        destruct t as [|c2 t''].
        - cbn [starts_with_lf negb].
          destruct (parse_process_char d p (Ch c)) as [p1|e] eqn:P1.
          + rewrite (reader_loop_line d _ _ p0 p1 rows Hc).
            apply end_line_ext. intros q r. reflexivity.
          + simpl. unfold parse_line. rewrite Hc. reflexivity.
        - cbn [starts_with_lf]. destruct (c2 =? LF)%char eqn:E2; cbn [negb].
          + (* carriage return, line feed *)
            destruct (parse_process_char d p (Ch c)) as [p1|e] eqn:P1.
            * cbn [scan]. rewrite E2. cbn [orb].
              assert (H2 : parse_chars d p0 (cur ++ String c (String c2 EmptyString)) =
                           parse_process_char d p1 (Ch c2)).
              { rewrite parse_chars_app, Hp. simpl. rewrite P1. simpl.
                destruct (parse_process_char d p1 (Ch c2)); reflexivity. }
              destruct (parse_process_char d p1 (Ch c2)) as [p2|e] eqn:P2.
              -- rewrite (reader_loop_line d _ _ p0 p2 rows H2).
                 apply end_line_ext. intros q r.
                 apply (IH t'' EmptyString q q r); [simpl in Hlen; lia | reflexivity].
              -- simpl. unfold parse_line. rewrite H2. reflexivity.
            * simpl. unfold parse_line.
              rewrite parse_chars_app, Hp. simpl. rewrite P1. reflexivity.
          + destruct (parse_process_char d p (Ch c)) as [p1|e] eqn:P1.
            * rewrite (reader_loop_line d _ _ p0 p1 rows Hc).
              apply end_line_ext. intros q r.
              apply (IH (String c2 t'') EmptyString q q r); [lia | reflexivity].
            * simpl. unfold parse_line. rewrite Hc. reflexivity. }
      cbn [orb andb].
      destruct (parse_process_char d p (Ch c)) as [p1|e] eqn:P1.
      * rewrite (IH t (cur ++ String c EmptyString) p0 p1 rows); [|lia|exact Hc].
        destruct cur; reflexivity.
      * apply reader_loop_parse_error, Hc.
Qed.

Lemma reader_scan (d : dialect) (text : string) :
  reader d text = scan d text parse_reset false [].
Proof.
  unfold reader.
  apply (reader_loop_scan d (String.length text) text EmptyString parse_reset parse_reset []);
    [lia | reflexivity].
Qed.

Lemma field_data_flat_cons (c : ascii) (s : string) :
  fst (field_data flat_dialect (String c s)) =
  if (c =? DQUOTE)%char then String DQUOTE (String DQUOTE (fst (field_data flat_dialect s)))
  else if (c =? BACKSLASH)%char
       then String BACKSLASH (String BACKSLASH (fst (field_data flat_dialect s)))
       else String c (fst (field_data flat_dialect s)).
Proof.
  cbn [field_data]. destruct (field_data flat_dialect s) as [body q].
  cbn [flat_dialect delimiter quotechar escapechar lineterminator is_escapechar in_string fst].
  destruct (c =? DQUOTE)%char eqn:EQ.
  - apply Ascii.eqb_eq in EQ. subst c. reflexivity.
  - destruct (c =? BACKSLASH)%char eqn:EB.
    + apply Ascii.eqb_eq in EB. subst c. reflexivity.
    + destruct ((c =? COMMA)%char || false || false || ((c =? LF)%char || false));
        reflexivity.
Qed.

Lemma length_app_string (a b : string) :
  String.length (a ++ b) = String.length a + String.length b.
Proof. induction a as [|x a IH]; simpl; [reflexivity | rewrite IH; reflexivity]. Qed.

Lemma add_char_quoted (fs : list string) (f : string) (c : ascii) :
  (N.of_nat (String.length f) < field_size_limit)%N ->
  parse_add_char (quoted_parser fs f) IN_QUOTED_FIELD c =
  Ok (quoted_parser fs (f ++ String c EmptyString)).
Proof.
  intros H. unfold parse_add_char. cbn [field quoted_parser fields].
  destruct (N.leb_spec field_size_limit (N.of_nat (String.length f))); [lia | reflexivity].
Qed.

(** One character of a quoted field that is not the quote character. *)
Lemma scan_quoted_char (fs : list string) (f : string) (c : ascii) (t : string)
    (pend : bool) (rows : list (list string)) :
  (c =? DQUOTE)%char = false ->
  (N.of_nat (String.length f) < field_size_limit)%N ->
  exists b, scan read_dialect (String c t) (quoted_parser fs f) pend rows =
            scan read_dialect t (quoted_parser fs (f ++ String c EmptyString)) b rows.
Proof.
  intros Hq Hlen. cbn [scan].
  assert (P : parse_process_char read_dialect (quoted_parser fs f) (Ch c) =
              Ok (quoted_parser fs (f ++ String c EmptyString))).
  { unfold parse_process_char. cbn [state quoted_parser].
    cbn [read_dialect excel is_escapechar escapechar quotechar]. rewrite Hq.
    apply add_char_quoted, Hlen. }
  rewrite P.
  destruct ((c =? LF)%char || ((c =? CR)%char && negb (starts_with_lf t))).
  - exists false. reflexivity.
  - exists true. reflexivity.
Qed.

Lemma scan_cons_plain (d : dialect) (c : ascii) (t : string) (p : parser) (pend : bool)
    (rows : list (list string)) :
  (c =? LF)%char = false -> (c =? CR)%char = false ->
  scan d (String c t) p pend rows =
  match parse_process_char d p (Ch c) with
  | Raise e => (rows, Some e)
  | Ok p1 => scan d t p1 true rows
  end.
Proof. intros H1 H2. cbn [scan]. rewrite H1, H2. reflexivity. Qed.

Lemma scan_cons_lf (d : dialect) (t : string) (p : parser) (pend : bool)
    (rows : list (list string)) :
  scan d (String LF t) p pend rows =
  match parse_process_char d p (Ch LF) with
  | Raise e => (rows, Some e)
  | Ok p1 => end_line d p1 rows (fun p2 rows' => scan d t p2 false rows')
  end.
Proof. reflexivity. Qed.

Lemma process_closing_quote (fs : list string) (f : string) :
  parse_process_char read_dialect (quoted_parser fs f) (Ch DQUOTE) =
  Ok (after_quote_parser fs f).
Proof. reflexivity. Qed.

Lemma process_second_quote (fs : list string) (f : string) :
  (N.of_nat (String.length f) < field_size_limit)%N ->
  parse_process_char read_dialect (after_quote_parser fs f) (Ch DQUOTE) =
  Ok (quoted_parser fs (f ++ String DQUOTE EmptyString)).
Proof.
  intros H. change (parse_process_char read_dialect (after_quote_parser fs f) (Ch DQUOTE))
    with (parse_add_char (after_quote_parser fs f) IN_QUOTED_FIELD DQUOTE).
  unfold parse_add_char. cbn [field after_quote_parser fields].
  destruct (N.leb_spec field_size_limit (N.of_nat (String.length f))); [lia | reflexivity].
Qed.

(** The doubled quote character inside a quoted field. *)
Lemma scan_quoted_quote (fs : list string) (f : string) (t : string)
    (pend : bool) (rows : list (list string)) :
  (N.of_nat (String.length f) < field_size_limit)%N ->
  scan read_dialect (String DQUOTE (String DQUOTE t)) (quoted_parser fs f) pend rows =
  scan read_dialect t (quoted_parser fs (f ++ String DQUOTE EmptyString)) true rows.
Proof.
  intros Hlen.
  rewrite scan_cons_plain, process_closing_quote by reflexivity.
  rewrite scan_cons_plain, process_second_quote by (reflexivity || exact Hlen).
  reflexivity.
Qed.

Lemma read_back_length_cons (c : ascii) (s : string) :
  String.length (read_back s) < String.length (read_back (String c s)).
Proof. simpl. destruct (c =? BACKSLASH)%char; simpl; lia. Qed.

(** The data of a quoted field: the reader appends to the field what
    [read_back] says. *)
Lemma scan_quoted_body (s : string) :
  forall (fs : list string) (f rest : string) (pend : bool) (rows : list (list string)),
    (N.of_nat (String.length f + String.length (read_back s)) <= field_size_limit)%N ->
    exists b,
      scan read_dialect (fst (field_data flat_dialect s) ++ String DQUOTE rest)
        (quoted_parser fs f) pend rows =
      scan read_dialect (String DQUOTE rest) (quoted_parser fs (f ++ read_back s)) b rows.
Proof.
  induction s as [|c s IH]; intros fs f rest pend rows Hlen.
  - exists pend. simpl. rewrite string_app_nil_r. reflexivity.
  - rewrite field_data_flat_cons.
    pose proof (read_back_length_cons c s) as Hlt.
    cbn [read_back] in *.
    destruct (c =? DQUOTE)%char eqn:EQ.
    + apply Ascii.eqb_eq in EQ. subst c.
      change ((DQUOTE =? BACKSLASH)%char) with false in *. cbv iota in *.
      cbn [append]. rewrite scan_quoted_quote by (simpl in Hlen; lia).
      destruct (IH fs (f ++ String DQUOTE EmptyString) rest true rows) as [b Hb].
      { rewrite length_app_string. simpl in *. lia. }
      exists b. rewrite Hb, string_app_assoc. reflexivity.
    + destruct (c =? BACKSLASH)%char eqn:EB.
      * apply Ascii.eqb_eq in EB. subst c. cbn [append].
        destruct (scan_quoted_char fs f BACKSLASH
                    (String BACKSLASH (fst (field_data flat_dialect s) ++ String DQUOTE rest))
                    pend rows eq_refl) as [b1 H1].
        { simpl in Hlen. lia. }
        destruct (scan_quoted_char fs (f ++ String BACKSLASH EmptyString) BACKSLASH
                    (fst (field_data flat_dialect s) ++ String DQUOTE rest)
                    b1 rows eq_refl) as [b2 H2].
        { rewrite length_app_string. simpl in *. lia. }
        destruct (IH fs ((f ++ String BACKSLASH EmptyString) ++ String BACKSLASH EmptyString)
                    rest b2 rows) as [b Hb].
        { rewrite !length_app_string. simpl in *. lia. }
        exists b. rewrite H1, H2, Hb, !string_app_assoc. reflexivity.
      * cbn [append].
        destruct (scan_quoted_char fs f c
                    (fst (field_data flat_dialect s) ++ String DQUOTE rest)
                    pend rows EQ) as [b1 H1].
        { simpl in Hlen. lia. }
        destruct (IH fs (f ++ String c EmptyString) rest b1 rows) as [b Hb].
        { rewrite length_app_string. simpl in *. lia. }
        exists b. rewrite H1, Hb, string_app_assoc. reflexivity.
Qed.

Lemma process_opening_quote (p : parser) :
  expects_field p ->
  parse_process_char read_dialect p (Ch DQUOTE) = Ok (quoted_parser (fields p) EmptyString).
Proof.
  intros [[H|[H _]] Hf]; destruct p as [st fs f]; simpl in *; subst; reflexivity.
Qed.

Lemma write_field_flat (s : string) :
  write_field flat_dialect s =
  String DQUOTE (fst (field_data flat_dialect s) ++ String DQUOTE EmptyString).
Proof.
  unfold write_field. destruct (field_data flat_dialect s) as [body q]. reflexivity.
Qed.

(** A whole quoted field, up to and including its closing quote. *)
Lemma scan_quoted_field (s : string) (p : parser) (rest : string) (pend : bool)
    (rows : list (list string)) :
  expects_field p -> fits s ->
  scan read_dialect (write_field flat_dialect s ++ rest) p pend rows =
  scan read_dialect rest (after_quote_parser (fields p) (read_back s)) true rows.
Proof.
  intros Hp Hs. rewrite write_field_flat. cbn [append].
  rewrite scan_cons_plain, (process_opening_quote p Hp) by reflexivity.
  rewrite string_app_assoc. cbn [append].
  destruct (scan_quoted_body s (fields p) EmptyString rest true rows) as [b Hb].
  { exact Hs. }
  rewrite Hb. cbn [append].
  rewrite scan_cons_plain, process_closing_quote by reflexivity. reflexivity.
Qed.

Lemma process_delimiter_after_quote (fs : list string) (f : string) :
  parse_process_char read_dialect (after_quote_parser fs f) (Ch COMMA) =
  Ok {| state := START_FIELD; fields := (fs ++ [f])%list; field := EmptyString |}.
Proof. reflexivity. Qed.

Lemma process_lf_after_quote (fs : list string) (f : string) :
  parse_process_char read_dialect (after_quote_parser fs f) (Ch LF) =
  Ok {| state := EAT_CRNL; fields := (fs ++ [f])%list; field := EmptyString |}.
Proof. reflexivity. Qed.

(** The fields of a record and its terminator. *)
Lemma scan_record (cells : list string) :
  cells <> [] ->
  forall (p : parser) (rest : string) (pend : bool) (rows : list (list string)),
    expects_field p -> Forall fits cells ->
    scan read_dialect
      (join_fields flat_dialect (map (write_field flat_dialect) cells) ++ String LF rest)
      p pend rows =
    scan read_dialect rest parse_reset false
      (rows ++ [fields p ++ map read_back cells])%list.
Proof.
  induction cells as [|s cells IH]; intros Hne p rest pend rows Hp Hf; [contradiction|].
  inversion Hf as [|? ? Hs Hf']; subst.
  destruct cells as [|s2 cells].
  - cbn [map join_fields].
    rewrite (scan_quoted_field s p _ pend rows Hp Hs).
    rewrite scan_cons_lf, process_lf_after_quote. reflexivity.
  - change (join_fields flat_dialect (map (write_field flat_dialect) (s :: s2 :: cells)))
      with (write_field flat_dialect s ++
            String COMMA (join_fields flat_dialect
                            (map (write_field flat_dialect) (s2 :: cells)))).
    rewrite string_app_assoc. cbn [append].
    rewrite (scan_quoted_field s p _ pend rows Hp Hs).
    rewrite scan_cons_plain, process_delimiter_after_quote by reflexivity.
    rewrite IH; [|discriminate | split; [left; reflexivity | reflexivity] | exact Hf'].
    cbn [fields map]. rewrite <- app_assoc. reflexivity.
Qed.

Lemma writerow_flat (cells : list string) :
  cells <> [] ->
  writerow flat_dialect cells =
  join_fields flat_dialect (map (write_field flat_dialect) cells) ++ String LF EmptyString.
Proof.
  intros Hne. unfold writerow. destruct cells as [|s cells]; [contradiction|].
  cbn [map]. destruct cells as [|s2 cells]; cbn [join_fields];
    rewrite write_field_flat; reflexivity.
Qed.

Lemma expects_field_reset : expects_field parse_reset.
Proof. split; [right; split; reflexivity | reflexivity]. Qed.

Lemma concat_empty_cons (x : string) (l : list string) :
  String.concat EmptyString (x :: l) = x ++ String.concat EmptyString l.
Proof.
  destruct l as [|y l]; simpl; [rewrite string_app_nil_r|]; reflexivity.
Qed.

(** A sequence of records. *)
Lemma scan_records (records : list (list string)) :
  forall (pend : bool) (rows : list (list string)),
    Forall (fun cells => cells <> [] /\ Forall fits cells) records ->
    scan read_dialect (String.concat EmptyString (map (writerow flat_dialect) records))
      parse_reset false rows =
    ((rows ++ map (map read_back) records)%list, None).
Proof.
  induction records as [|cells records IH]; intros pend rows H.
  - simpl. rewrite app_nil_r. reflexivity.
  - inversion H as [|? ? [Hne Hf] H']; subst.
    cbn [map]. rewrite concat_empty_cons, (writerow_flat cells Hne), string_app_assoc.
    cbn [append].
    rewrite (scan_record cells Hne parse_reset _ false rows expects_field_reset Hf).
    rewrite (IH false _ H'). cbn [fields parse_reset app map].
    rewrite <- app_assoc. reflexivity.
Qed.

(** Reading the flat file back: the reader returns the header and the rows
    in order, every cell as [read_back] says. *)
Theorem flat_file_read_back (py_str : value -> string) (header : list string)
    (rows : list dict) :
  header <> [] ->
  Forall fits header ->
  Forall (fun row => Forall fits (row_cells py_str header row)) rows ->
  reader read_dialect (flat_text py_str header rows) =
  (map read_back header ::
   map (fun row => map read_back (row_cells py_str header row)) rows, None).
Proof.
  intros Hne Hh Hr. rewrite reader_scan. unfold flat_text.
  rewrite <- (map_map (row_cells py_str header) (writerow flat_dialect)).
  rewrite <- concat_empty_cons.
  change (writerow flat_dialect header ::
          map (writerow flat_dialect) (map (row_cells py_str header) rows))
    with (map (writerow flat_dialect)
            (header :: map (row_cells py_str header) rows)).
  rewrite (scan_records _ false []).
  - cbn [app map]. rewrite map_map. reflexivity.
  - constructor; [split; assumption|].
    rewrite Forall_forall in *. intros cells Hc.
    apply in_map_iff in Hc as (row & <- & Hrow). split; [|apply Hr, Hrow].
    unfold row_cells, dict_to_list. destruct header; [contradiction | discriminate].
Qed.

Lemma read_back_plain (s : string) :
  in_string BACKSLASH s = false -> read_back s = s.
Proof.
  induction s as [|c s IH]; cbn [in_string read_back]; intros H; [reflexivity|].
  apply orb_false_iff in H as [H1 H2].
  rewrite (Ascii.eqb_sym c BACKSLASH), H1, (IH H2). reflexivity.
Qed.

Lemma read_back_length (s : string) : String.length s <= String.length (read_back s).
Proof.
  induction s as [|c s IH]; cbn [read_back]; [apply Nat.le_refl|].
  destruct (c =? BACKSLASH)%char; cbn [String.length]; lia.
Qed.

(** A cell with a backslash is not read back as it was written. *)
Lemma read_back_backslash (s : string) :
  in_string BACKSLASH s = true -> read_back s <> s.
Proof.
  intros H E. assert (L : String.length s < String.length (read_back s)).
  { clear E. induction s as [|c s IH]; cbn [in_string] in H; [discriminate|].
    cbn [read_back]. pose proof (read_back_length s) as Hl.
    destruct (c =? BACKSLASH)%char eqn:EB; cbn [String.length]; [lia|].
    rewrite (Ascii.eqb_sym BACKSLASH c), EB in H. cbn [orb] in H.
    specialize (IH H). lia. }
  rewrite E in L. lia.
Qed.

End csv_facts.

(** ** Cells with a backslash or a lone carriage return *)

(** C3 fails on the code.  A run over two records whose product names are
    [C:\tmp] and [a<CR>b] completes.  The writer of the flat file escapes
    the backslash, the reader of the flat file knows no escape character:
    the name read back, and written to the derived file, is [C:\\tmp].
    The derived file leaves the carriage return unquoted: re-read, the row
    of the second record breaks in two. *)
Theorem special_cells_do_not_round_trip :
  let files := fst example_run_special in
  let flat := fst (csv.reader read_dialect (file_text "pricebooks_export.csv" files)) in
  let derived :=
    fst (csv.reader tsv_read_dialect (file_text "pricebooks_export.tsv" files)) in
  (exists rep, snd example_run_special = Ok rep /\
     map (fun row => get row "Product.Name") (flat_rows rep)
     = [VStr "C:\tmp"; VStr ("a" ++ String csv.CR "b")]) /\
  product_name_cells flat = ["Product.Name"; "C:\\tmp"; "a" ++ String csv.CR "b"] /\
  List.length flat = 3 /\
  List.length derived = 4 /\
  nth 1 (product_name_cells derived) EmptyString = "C:\\tmp".
Proof.
  vm_compute. split; [eexists; split; reflexivity|]. repeat split.
Qed.

(** ** Runs that complete *)

Lemma header_cols_nonempty (cur inc : bool) (pbe p2 : list string) :
  header_cols cur inc pbe p2 <> [].
Proof. destruct cur; discriminate. Qed.

Lemma sorted_pricebooks_total (lower : string -> string) (m : pricebooks_map) :
  Forall (fun c => text_or_falsy (Name c)) (map snd m) ->
  exists pbs, sorted_pricebooks lower m = Ok pbs.
Proof.
  intros H. unfold sorted_pricebooks. rewrite (keyed_text lower _ H).
  eexists. reflexivity.
Qed.

(** A run whose remote calls succeed, whose records can all be filed,
    whose catalog names are text and whose cells are within the field size
    limit of the reader completes, with the rows of all records and the
    document of the index after the pass. *)
Lemma main_completes (py_str : value -> string) (lower : string -> string)
    (json_dumps : document -> string)
    (cfg : config) (rem : remote) (files : fs)
    (pbe p2 : list string) (cur : bool) (m0 : pricebooks_map) :
  login_salesforce cfg rem = Ok (service rem) ->
  discover_custom_fields (service rem) "PricebookEntry" = Ok pbe ->
  (if INCLUDE_PRODUCT2_CUSTOM_FIELDS cfg
   then discover_custom_fields (service rem) "Product2" else Ok []) = Ok p2 ->
  detect_multi_currency (service rem) = Ok cur ->
  preload (catalog_listing rem) = Ok m0 ->
  let inc := INCLUDE_PRODUCT2_CUSTOM_FIELDS cfg in
  let records := yielded (entry_stream cfg rem cur pbe p2) in
  let header := header_cols cur inc pbe p2 in
  let rows := map (flat_row cur inc pbe p2) records in
  let m1 := index_after cur inc pbe p2 records m0 in
  fault (entry_stream cfg rem cur pbe p2) = None ->
  Forall (fun r => hashable (resolve_pb_id r)) records ->
  Forall (fun c => text_or_falsy (Name c)) (map snd m1) ->
  Forall csv_scan.fits header ->
  Forall (fun row => Forall csv_scan.fits (row_cells py_str header row)) rows ->
  exists files' pbs,
    sorted_pricebooks lower m1 = Ok pbs /\
    main py_str lower json_dumps cfg rem files =
    (files', Ok {| flat_header := header; flat_rows := rows;
                   total_entry_rows := List.length records;
                   exported := build_document (clock rem) cur pbe p2 pbs |}).
Proof.
  intros L D1 D2 P PL inc records header rows m1 F Hh Ht Hfh Hfr.
  pose proof (discover_custom_fields_suffix _ _ _ D1) as S1.
  pose proof (suffix_not_in _ _ S1 product_no_suffix) as Hnp.
  destruct (sorted_pricebooks_total lower m1 Ht) as [pbs SO].
  unfold main. rewrite L, D1, D2, P.
  unfold catalog_listing in PL. rewrite PL.
  unfold entry_stream in *. cbv zeta. unfold stream_pass.
  rewrite (stream_loop_complete cur _ pbe p2 Hnp _ m0 [] 0 Hh), F.
  cbn [app Nat.add].
  fold records. fold inc. fold rows. fold header. fold m1.
  unfold read_file, write_file. rewrite !lookup_dict_set, String.eqb_refl.
  pose proof (csv_facts.flat_file_read_back py_str header rows
                (header_cols_nonempty _ _ _ _) Hfh Hfr) as RB.
  destruct (with_suffix (OUTPUT_CSV_NAME cfg) ".tsv" =? OUTPUT_CSV_NAME cfg) eqn:E.
  - change (csv.reader read_dialect EmptyString) with (@nil (list string), @None exn).
    cbv iota. rewrite !lookup_dict_set, E.
    change (tsv_text []) with EmptyString.
    change (csv.reader read_dialect EmptyString) with (@nil (list string), @None exn).
    cbv iota. rewrite SO. eexists _, pbs. split; reflexivity.
  - rewrite RB. rewrite !lookup_dict_set, E, String.eqb_refl, RB.
    rewrite SO. eexists _, pbs. split; reflexivity.
Qed.

(** ** The files of a completed run *)

(** With three distinct paths, the flat file of a completed run holds the
    header and the rows of the report, the derived file holds the rows read
    back from the flat file, and the document file holds the serialised
    document. *)
Lemma completed_run_files (py_str : value -> string) (lower : string -> string)
    (json_dumps : document -> string)
    (cfg : config) (rem : remote) (files files' : fs) (rep : report) :
  main py_str lower json_dumps cfg rem files = (files', Ok rep) ->
  let out_csv := OUTPUT_CSV_NAME cfg in
  let out_json := OUTPUT_JSON_NAME cfg in
  let tsv_path := with_suffix out_csv ".tsv" in
  let text := flat_text py_str (flat_header rep) (flat_rows rep) in
  tsv_path <> out_csv -> out_json <> out_csv -> out_json <> tsv_path ->
  lookup out_csv files' = Some text /\
  lookup tsv_path files' = Some (tsv_text (fst (csv.reader read_dialect text))) /\
  lookup out_json files' = Some (json_dumps (exported rep)).
Proof.
  intros H out_csv out_json tsv_path text Htc Hjc Hjt. unfold main in H.
  destruct (login_salesforce cfg rem) as [sf|]; [|discriminate].
  destruct (discover_custom_fields sf "PricebookEntry") as [pbe|]; [|discriminate].
  destruct (if INCLUDE_PRODUCT2_CUSTOM_FIELDS cfg
            then discover_custom_fields sf "Product2" else Ok [])
    as [p2|]; [|discriminate].
  destruct (detect_multi_currency sf) as [cur|]; [|discriminate].
  destruct (preload (query_all_iter sf build_all_pricebooks_soql)) as [m0|]; [|discriminate].
  destruct (stream_pass cur (INCLUDE_PRODUCT2_CUSTOM_FIELDS cfg) pbe p2
              (query_all_iter sf (build_flat_pbe_soql cur pbe p2 (PRICEBOOK2_ID cfg))) m0)
    as [rows [[m1 total]|]]; [|discriminate].
  fold out_csv out_json tsv_path in H.
  unfold read_file, write_file in H.
  rewrite !lookup_dict_set in H.
  rewrite (proj2 (String.eqb_neq tsv_path out_csv) Htc), String.eqb_refl in H.
  destruct (csv.reader read_dialect
              (flat_text py_str
                 (header_cols cur (INCLUDE_PRODUCT2_CUSTOM_FIELDS cfg) pbe p2) rows))
    as [read_rows [e|]] eqn:R; [discriminate|].
  rewrite !lookup_dict_set in H.
  rewrite (proj2 (String.eqb_neq tsv_path out_csv) Htc), String.eqb_refl, R in H.
  destruct (sorted_pricebooks lower m1) as [pbs|]; [|discriminate].
  injection H as <- <-.
  subst text. cbn [flat_header flat_rows exported]. rewrite R. cbn [fst].
  split; [|split]; rewrite !lookup_dict_set.
  - rewrite (proj2 (String.eqb_neq out_json out_csv) Hjc).
    rewrite (proj2 (String.eqb_neq tsv_path out_csv) Htc).
    rewrite String.eqb_refl. reflexivity.
  - rewrite (proj2 (String.eqb_neq out_json tsv_path) Hjt).
    rewrite String.eqb_refl. reflexivity.
  - rewrite String.eqb_refl. reflexivity.
Qed.
